(** * davil: star-coordinates view, verified core

    A shallow embedding of the point-size scaler, the mapping animator, the
    mapper controller and the axis-visibility update of the star-coordinates
    view, with the properties their specification states.

    Numbers: the Python code computes on floats (and on ints for sizes).  The
    embedding uses exact rationals [Q] for floats and [Z] for ints, so every
    statement below is about the arithmetic the code writes down, free of
    rounding.  Equality of computed coordinates is [Qeq] (written [==]);
    Leibniz equality [=] is used where the code stores or forwards a value
    without computing on it.

    Exceptions: a function that can raise returns a [result]; a method that
    mutates its object returns the object after the call together with the
    outcome, so that the state left behind by a raise is visible. *)

From Stdlib Require Import ZArith QArith Qround Lia.
From stdpp Require Import base option list gmap strings fin_maps.

Local Open Scope Q_scope.

(** ** Exceptions and results *)

Inductive exn : Type :=
| KeyError
| IndexError
| ValueError
| ZeroDivisionError
| AttributeError
| RuntimeError.

Inductive result (A : Type) : Type :=
| Ok (a : A)
| Raise (e : exn).
Arguments Ok {A} a.
Arguments Raise {A} e.

Definition rbind {A B : Type} (r : result A) (k : A -> result B) : result B :=
  match r with
  | Ok a => k a
  | Raise e => Raise e
  end.

Notation "x <- r ;; k" := (rbind r (fun x => k))
  (at level 100, r at next level, right associativity, only parsing).

(** [for i in l: s = body(s, i)], stopping at the first raise. *)
Fixpoint for_each {S I : Type} (body : S -> I -> result S) (s : S) (l : list I)
  : result S :=
  match l with
  | [] => Ok s
  | i :: l' => s' <- body s i ;; for_each body s' l'
  end.

(** Python's [range(0, n)] for an int [n]: empty when [n <= 0]. *)
Definition range0 (n : Z) : list nat := seq 0 (Z.to_nat n).

(** ** Tables

    A pandas [Series] is a column of numbers addressed by position; a
    [DataFrame] is a dictionary from column names to columns. *)

Abbreviation Series := (list Q).
Abbreviation DataFrame := (gmap string Series).

(** [df[name]]: [KeyError] when the column is absent. *)
Definition getitem (df : DataFrame) (name : string) : result Series :=
  match df !! name with
  | Some s => Ok s
  | None => Raise KeyError
  end.

(** [s[i]] for a position [i]: an error when out of range. *)
Definition series_get (s : Series) (i : nat) : result Q :=
  match s !! i with
  | Some v => Ok v
  | None => Raise IndexError
  end.

(** Python's [int(x)] on a number: truncation towards zero. *)
Definition int (x : Q) : Z := Z.quot (Qnum x) (Z.pos (Qden x)).

(** ** backend/util/line_equation.py *)

Module line_equation.

(** Modelled from the spec: [calculate_line_equation] lives in
  backend/util/line_equation.py, which is not among the sources.  The spec
  describes it as the slope/intercept pair [(m, c)] solved from two
  coordinate pairs, and asks that a zero denominator be special-cased
  instead of divided by; the pair returned here for equal abscissas is the
  zero-slope line through the first point. *)
Definition calculate_line_equation (x0x1 y0y1 : Q * Q) : Q * Q :=
let '(x0, x1) := x0x1 in
let '(y0, y1) := y0y1 in
if Qeq_bool x0 x1 then (0, y0)
else
  let m := (y1 - y0) / (x1 - x0) in
  (m, y0 - m * x0).

End line_equation.

(** ** frontend/view/controllers: collaborators of the core *)

(** Modelled from the spec: [PointController] (point_controller.py) is not
    among the sources.  It owns the shared render buffer, "a mutable
    key-to-column-vector store (positions, sizes, colors)" into which the core
    "only writes full replacement vectors into named columns".  [frames] logs
    every coordinate update in the order the rendering layer saw them, each
    with the columns as they were when it was made. *)
Record PointController : Type := mkPointController {
  number_of_points : nat;
  data : gmap string Series;
  frames : list (Series * Series)
}.

Definition get_number_of_points (pc : PointController) : nat :=
  number_of_points pc.

Definition update_coordinates (x y : Series) (pc : PointController)
  : PointController :=
  {| number_of_points := number_of_points pc;
     data := <["y" := y]> (<["x" := x]> (data pc));
     frames := frames pc ++ [(x, y)] |}.

Definition update_sizes_column (sizes : Series) (pc : PointController)
  : PointController :=
  {| number_of_points := number_of_points pc;
     data := <["size" := sizes]> (data pc);
     frames := frames pc |}.

(** Modelled from the spec: [ErrorController] (error_controller.py) is not
    among the sources.  Only its last normalized per-point error, a vector
    scaled to [0,1], is read by the size scaler. *)
Record ErrorController : Type := mkErrorController {
  last_point_error_normalized : Series
}.

Definition get_last_point_error (ec : ErrorController) : Series :=
  last_point_error_normalized ec.

(** ** frontend/view/controllers/point_size_controller.py *)

Module PointSizeController.

Definition DEFAULT_INITIAL_SIZE : Z := 4.
Definition DEFAULT_FINAL_SIZE : Z := 12.
Definition MIN_SIZE : Z := 1.

Record t : Type := mk {
  _error_controller : ErrorController;
  _point_controller : PointController;
  _m : Q;
  _c : Q;
  _initial_size : Z;
  _final_size : Z
}.

Definition _calculate_line_equation (initial_size final_size : Z) : Q * Q :=
  let x0x1 := (0, 1) in
  let y0y1 := (inject_Z initial_size, inject_Z final_size) in
  line_equation.calculate_line_equation x0x1 y0y1.

Definition _get_valid_size (size : Q) : Z :=
  let size := int size in
  if (MIN_SIZE <=? size)%Z then size else MIN_SIZE.

Definition __init__ (error_controller : ErrorController)
    (point_controller : PointController) (initial_size final_size : Z) : t :=
  let '(m, c) := _calculate_line_equation initial_size final_size in
  {| _error_controller := error_controller;
     _point_controller := point_controller;
     _m := m;
     _c := c;
     _initial_size := initial_size;
     _final_size := final_size |}.

Definition get_initial_size (self : t) : Z := _initial_size self.
Definition get_final_size (self : t) : Z := _final_size self.

(** The sizes a controller shows: the [size] column of the render buffer. *)
Definition sizes (self : t) : option Series :=
  data (_point_controller self) !! "size".

Definition update_sizes (self : t) : t :=
  let point_error_s := get_last_point_error (_error_controller self) in
  let '(m, c) :=
    _calculate_line_equation (_initial_size self) (_final_size self) in
  {| _error_controller := _error_controller self;
     _point_controller :=
       update_sizes_column (map (fun e => m * e + c) point_error_s)
                           (_point_controller self);
     _m := m;
     _c := c;
     _initial_size := _initial_size self;
     _final_size := _final_size self |}.

Definition set_single_size (self : t) (new_size : Q) : t :=
  let new_size := _get_valid_size new_size in
  let no_points := get_number_of_points (_point_controller self) in
  {| _error_controller := _error_controller self;
     _point_controller :=
       update_sizes_column
         (map (fun _ => inject_Z new_size) (seq 0 no_points))
         (_point_controller self);
     _m := _m self;
     _c := _c self;
     _initial_size := _initial_size self;
     _final_size := _final_size self |}.

Definition set_initial_size (self : t) (new_size : Q) : t :=
  update_sizes
    {| _error_controller := _error_controller self;
       _point_controller := _point_controller self;
       _m := _m self;
       _c := _c self;
       _initial_size := _get_valid_size new_size;
       _final_size := _final_size self |}.

Definition set_final_size (self : t) (new_size : Q) : t :=
  update_sizes
    {| _error_controller := _error_controller self;
       _point_controller := _point_controller self;
       _m := _m self;
       _c := _c self;
       _initial_size := _initial_size self;
       _final_size := _get_valid_size new_size |}.

End PointSizeController.

(** ** frontend/view/animation/mapping_animator.py *)

Module MappingAnimator.

(** The Python code mutates the step table in place; here a function that
    does so returns the table as the call leaves it. *)

(** The formulas handed to [DataFrame.eval]: arithmetic over column names,
    evaluated row by row. *)
Inductive expr : Type :=
| Col (name : string)
| Add (a b : expr)
| Mul (a b : expr).

Fixpoint eval (df : DataFrame) (e : expr) : result Series :=
  match e with
  | Col name => getitem df name
  | Add a b => sa <- eval df a ;; sb <- eval df b ;; Ok (zip_with Qplus sa sb)
  | Mul a b => sa <- eval df a ;; sb <- eval df b ;; Ok (zip_with Qmult sa sb)
  end.

(** A method of the animator runs against the point controller it holds:
    it returns the controller after the call and the outcome. *)
Definition M (A : Type) : Type := PointController -> PointController * result A.

Definition ret {A : Type} (a : A) : M A := fun pc => (pc, Ok a).

Definition bind {A B : Type} (m : M A) (k : A -> M B) : M B :=
  fun pc =>
    match m pc with
    | (pc', Ok a) => k a pc'
    | (pc', Raise e) => (pc', Raise e)
    end.

Definition lift {A : Type} (r : result A) : M A := fun pc => (pc, r).

Definition push (x y : Series) : M unit :=
  fun pc => (update_coordinates x y pc, Ok tt).

Notation "x <~ m ;; k" := (bind m (fun x => k))
  (at level 100, m at next level, right associativity, only parsing).

Fixpoint for_eachM {S I : Type} (body : S -> I -> M S) (s : S) (l : list I)
  : M S :=
  match l with
  | [] => ret s
  | i :: l' => s' <~ body s i ;; for_eachM body s' l'
  end.

Definition step_x_exponential (step_points_df final_points : DataFrame)
    (step total_steps : Z) : result DataFrame :=
  xs <- getitem step_points_df "x" ;;
  for_each
    (fun step_points_df i =>
       sx <- getitem step_points_df "x" ;;
       x0 <- series_get sx i ;;
       fx <- getitem final_points "x" ;;
       xf <- series_get fx i ;;
       Ok (<["x" := <[i := x0 + inject_Z step * (xf - x0) / inject_Z total_steps]> sx]>
             step_points_df))
    step_points_df (seq 0 (length xs)).


Definition evaluate_y (points_df : DataFrame) (formula : expr) : result DataFrame :=
  y <- eval points_df formula ;;
  Ok (<["y" := y]> points_df).

(** [time.time()] is outside the program: [elapsed] is the difference the
    two clock readings of one call produce.  The log line computes
    [1/time_cost]. *)
Definition calculate_time_cost (elapsed : Q) (points_df mapped_points : DataFrame)
    (formula : expr) : M (DataFrame * Q) :=
  points_df <~ lift (step_x_exponential points_df mapped_points 0 1) ;;
  points_df <~ lift (evaluate_y points_df formula) ;;
  x <~ lift (getitem points_df "x") ;;
  y <~ lift (getitem points_df "y") ;;
  _ <~ push x y ;;
  let time_cost := elapsed in
  if Qeq_bool time_cost 0 then lift (Raise ZeroDivisionError)
  else ret (points_df, time_cost).

Section Animator.

(** The line solver imported from backend/util/line_equation.py. *)
Variable calculate_line_equation : Q * Q -> Q * Q -> Q * Q.

Definition _get_equation_dataframe (original_points mapped_points : DataFrame)
  : result (DataFrame * expr) :=
  let formula := Add (Mul (Col "m") (Col "x")) (Col "c") in
  let original_points_cp := original_points in
  ox <- getitem original_points "x" ;;
  mx <- getitem mapped_points "x" ;;
  let x_coords := zip ox mx in
  oy <- getitem original_points "y" ;;
  my <- getitem mapped_points "y" ;;
  let y_coords := zip oy my in
  let points := zip x_coords y_coords in
  let mc := map (fun p => calculate_line_equation (fst p) (snd p)) points in
  let m_l := map fst mc in
  let c_l := map snd mc in
  if negb (length m_l =? length ox)%nat then Raise ValueError
  else Ok (<["c" := c_l]> (<["m" := m_l]> original_points_cp), formula).

Definition get_animation_sequence (elapsed : Q)
    (original_points mapped_points : DataFrame) (max_time : Q) : M unit :=
  p <~ lift (_get_equation_dataframe original_points mapped_points) ;;
  let step_points_cp := fst p in
  let formula := snd p in
  q <~ calculate_time_cost elapsed step_points_cp mapped_points formula ;;
  let step_points_cp := fst q in
  let time_cost := snd q in
  let total_steps := Qfloor (max_time / time_cost) in
  _ <~ for_eachM
         (fun step_points_cp step =>
            step_points_cp <~ lift (step_x_exponential step_points_cp mapped_points
                                      (Z.of_nat step) total_steps) ;;
            step_points_cp <~ lift (evaluate_y step_points_cp formula) ;;
            x <~ lift (getitem step_points_cp "x") ;;
            y <~ lift (getitem step_points_cp "y") ;;
            _ <~ push x y ;;
            ret step_points_cp)
         step_points_cp (range0 total_steps) ;;
  x <~ lift (getitem mapped_points "x") ;;
  y <~ lift (getitem mapped_points "y") ;;
  push x y.

End Animator.

End MappingAnimator.

(** ** frontend/view/controllers/mapper_controller.py *)

Module MapperController.

(** The collaborators the controller holds are kept by what
    [execute_mapping] asks of them: the normalization controller by its last
    normalized values, the vector controller by its vectors, the algorithm
    register by the active strategy (an opaque callable that may raise), the
    animator by its [get_animation_sequence], which runs against the point
    controller and receives [None] until a first mapping is stored. *)
Record t : Type := mk {
  _normalization_controller : DataFrame;
  _vector_controller : DataFrame;
  _active_algorithm : DataFrame -> DataFrame -> result DataFrame;
  _source_points : option (gmap string Series);
  _animator : option (option DataFrame -> DataFrame -> MappingAnimator.M unit);
  _last_mapped_points_df : option DataFrame
}.

Definition get_last_normalized_values (self : t) : DataFrame :=
  _normalization_controller self.

Definition get_vectors (self : t) : DataFrame := _vector_controller self.

Definition execute_active_algorithm (self : t) (values vectors : DataFrame)
  : result DataFrame :=
  _active_algorithm self values vectors.

Definition set_last_mapped_points_df (self : t) (df : DataFrame) : t :=
  {| _normalization_controller := _normalization_controller self;
     _vector_controller := _vector_controller self;
     _active_algorithm := _active_algorithm self;
     _source_points := _source_points self;
     _animator := _animator self;
     _last_mapped_points_df := Some df |}.

Definition set_source_points (self : t) (source_points : option (gmap string Series))
  : t :=
  {| _normalization_controller := _normalization_controller self;
     _vector_controller := _vector_controller self;
     _active_algorithm := _active_algorithm self;
     _source_points := source_points;
     _animator := _animator self;
     _last_mapped_points_df := _last_mapped_points_df self |}.

Definition get_mapped_points (self : t) : option DataFrame :=
  _last_mapped_points_df self.

(** [self._source_points.data['x'] = mapped_points_df['x']], then the same
    for ['y']: each right-hand side is read before its column is written. *)
Definition _update_source_points (self : t) (source : gmap string Series)
    (mapped_points_df : DataFrame) : t * result unit :=
  match getitem mapped_points_df "x" with
  | Raise e => (self, Raise e)
  | Ok x =>
      let source := <["x" := x]> source in
      let self := set_source_points self (Some source) in
      match getitem mapped_points_df "y" with
      | Raise e => (self, Raise e)
      | Ok y => (set_source_points self (Some (<["y" := y]> source)), Ok tt)
      end
  end.

(** The method runs against the controller and the point controller its
    animator draws on; both are returned as the call leaves them. *)
Definition execute_mapping (self : t) (pc : PointController)
  : t * PointController * result DataFrame :=
  let dimension_values_df_norm := get_last_normalized_values self in
  let vectors_df := get_vectors self in
  match execute_active_algorithm self dimension_values_df_norm vectors_df with
  | Raise e => (self, pc, Raise e)
  | Ok mapped_points_df =>
      let '(pc, animated) :=
        match _animator self with
        | Some get_animation_sequence =>
            get_animation_sequence (_last_mapped_points_df self) mapped_points_df pc
        | None => (pc, Ok tt)
        end in
      match animated with
      | Raise e => (self, pc, Raise e)
      | Ok _ =>
          let self := set_last_mapped_points_df self mapped_points_df in
          match _source_points self with
          | Some source =>
              match _update_source_points self source mapped_points_df with
              | (self, Raise e) => (self, pc, Raise e)
              | (self, Ok _) => (self, pc, Ok mapped_points_df)
              end
          | None => (self, pc, Ok mapped_points_df)
          end
      end
  end.

End MapperController.

(** ** frontend/view/star_coordinates_view.py *)

Module StarCoordinatesView.

(** Modelled from the spec: [AxisFigureElement]
    (figure_element/axis_figure_element.py) is not among the sources.  An
    axis carries a visibility flag; [visible] sets it and tells whether it
    changed ("Tries to hide the axis element. If a change is made then
    execute mapping"). *)
Record AxisFigureElement : Type := mkAxis { is_visible : bool }.

Definition visible (self : AxisFigureElement) (v : bool)
  : AxisFigureElement * bool :=
  (mkAxis v, negb (eqb (is_visible self) v)).

(** Modelled from the spec: [InputDataController]
    (controllers/input_data_controller.py) is not among the sources.  A
    dimension is "flagged inactive/hidden" by membership in a set of ignored
    labels, the set mapper_controller.py's comments name; a visible label
    is discarded from it, a hidden one added. *)
Definition update_label_status (ignored : gset string) (label : string)
    (active : bool) : gset string :=
  if active then ignored ∖ {[label]} else {[label]} ∪ ignored.

Record t : Type := mk {
  _axis_elements : gmap string AxisFigureElement;
  _input_data_controller : gset string;
  (** how many times [_execute_mapping] has run *)
  _mappings_executed : nat
}.

(** [_execute_mapping] recomputes the mapping and the errors; the view
    keeps no more of it here than the fact that it ran. *)
Definition _execute_mapping (self : t) : t :=
  {| _axis_elements := _axis_elements self;
     _input_data_controller := _input_data_controller self;
     _mappings_executed := S (_mappings_executed self) |}.

Definition update_axis_visibility (self : t) (new : string * bool)
  : t * result unit :=
  let '(axis_id, is_visible) := new in
  (* the exception object is built and dropped: the statement has no raise *)
  let _ : option exn :=
    if negb (bool_decide (axis_id ∈ dom (_axis_elements self)))
    then Some ValueError else None in
  let self :=
    {| _axis_elements := _axis_elements self;
       _input_data_controller :=
         update_label_status (_input_data_controller self) axis_id is_visible;
       _mappings_executed := _mappings_executed self |} in
  match _axis_elements self !! axis_id with
  | None => (self, Raise KeyError)
  | Some element =>
      let '(element, changed) := visible element is_visible in
      let self :=
        {| _axis_elements := <[axis_id := element]> (_axis_elements self);
           _input_data_controller := _input_data_controller self;
           _mappings_executed := _mappings_executed self |} in
      if changed then (_execute_mapping self, Ok tt) else (self, Ok tt)
  end.

End StarCoordinatesView.

(** ** frontend/view/star_coordinates_view.py: the point labels *)

Module PointLabels.








End PointLabels.

(** * Vocabulary of the statements *)

(** One step of the x update: [x0 + step * (xf - x0) / total_steps]. *)
Definition interp (step total_steps : Z) (x0 xf : Q) : Q :=
  x0 + inject_Z step * (xf - x0) / inject_Z total_steps.

(** The y a step table gets from its [m], [x] and [c] columns. *)
Definition line_y (m_l c_l xs : Series) : Series :=
  zip_with Qplus (zip_with Qmult m_l xs) c_l.

(** The body of the loop of [step_x_exponential]. *)
Definition x_body (final_points : DataFrame) (step total_steps : Z)
    (step_points_df : DataFrame) (i : nat) : result DataFrame :=
  sx <- getitem step_points_df "x" ;;
  x0 <- series_get sx i ;;
  fx <- getitem final_points "x" ;;
  xf <- series_get fx i ;;
  Ok (<["x" := <[i := x0 + inject_Z step * (xf - x0) / inject_Z total_steps]> sx]>
        step_points_df).


(** The body of the loop of [get_animation_sequence]. *)
Definition frame_body (mapped_points : DataFrame) (formula : MappingAnimator.expr)
    (total_steps : Z) (step_points_cp : DataFrame) (step : nat)
  : MappingAnimator.M DataFrame :=
  MappingAnimator.bind
    (MappingAnimator.lift
       (MappingAnimator.step_x_exponential step_points_cp mapped_points
          (Z.of_nat step) total_steps))
    (fun step_points_cp =>
       MappingAnimator.bind
         (MappingAnimator.lift (MappingAnimator.evaluate_y step_points_cp formula))
         (fun step_points_cp =>
            MappingAnimator.bind (MappingAnimator.lift (getitem step_points_cp "x"))
              (fun x =>
                 MappingAnimator.bind
                   (MappingAnimator.lift (getitem step_points_cp "y"))
                   (fun y =>
                      MappingAnimator.bind (MappingAnimator.push x y)
                        (fun _ => MappingAnimator.ret step_points_cp))))).

(** A layout: a table with an [x] and a [y] column of one length. *)
Definition layout (df : DataFrame) (x y : Series) : Prop :=
  df !! "x" = Some x /\ df !! "y" = Some y /\ length x = length y.

(** The point controller after a list of coordinate updates. *)
Definition pushes (l : list (Series * Series)) (pc : PointController)
  : PointController :=
  fold_left (fun pc f => update_coordinates (fst f) (snd f) pc) l pc.

(** The x columns the loop of [get_animation_sequence] goes through: [n]
    steps numbered from [k], starting from the column [xs]. *)
Fixpoint run_steps (total_steps : Z) (fx xs : Series) (k n : nat) : list Series :=
  match n with
  | O => []
  | S n' =>
      let xs' := zip_with (interp (Z.of_nat k) total_steps) xs fx in
      xs' :: run_steps total_steps fx xs' (S k) n'
  end.

(** The same for one point: its x after [n] steps numbered from [k]. *)
Fixpoint x_run (total_steps : Z) (xf x : Q) (k n : nat) : Q :=
  match n with
  | O => x
  | S n' => x_run total_steps xf (interp (Z.of_nat k) total_steps x xf) (S k) n'
  end.

(** The x of a point at step [s], each step starting from the x the step
    before left: [X 0 = x0] and [X (s+1) = X s + (s+1) * (xf - X s) / T]. *)
Fixpoint exp_x (total_steps : Z) (x0 xf : Q) (s : nat) : Q :=
  match s with
  | O => x0
  | S s' => interp (Z.of_nat s) total_steps (exp_x total_steps x0 xf s') xf
  end.

(** The slopes and intercepts [_get_equation_dataframe] stores. *)
Definition equations (solve : Q * Q -> Q * Q -> Q * Q) (ox oy mx my : Series)
  : list (Q * Q) :=
  map (fun p => solve (fst p) (snd p)) (zip (zip ox mx) (zip oy my)).

(** Every coordinate update of one call of [get_animation_sequence], in
    order: the timing probe, one frame per step, the target. *)
Definition animation_frames (solve : Q * Q -> Q * Q -> Q * Q) (total_steps : Z)
    (ox oy mx my : Series) : list (Series * Series) :=
  let m_l := map fst (equations solve ox oy mx my) in
  let c_l := map snd (equations solve ox oy mx my) in
  let probe := zip_with (interp 0 1) ox mx in
  (probe, line_y m_l c_l probe)
  :: map (fun xs => (xs, line_y m_l c_l xs))
         (run_steps total_steps mx probe 0 (Z.to_nat total_steps))
  ++ [(mx, my)].

(** A table with just the two coordinate columns. *)
Definition table (x y : Series) : DataFrame := <["x" := x]> (<["y" := y]> ∅).

(** A mapper controller without animator, bound to a source, holding the
    table of an earlier mapping; its algorithm returns a table that lacks
    the [x] column. *)
Definition stale_controller : MapperController.t :=
  {| MapperController._normalization_controller := ∅;
     MapperController._vector_controller := ∅;
     MapperController._active_algorithm := fun _ _ => Ok (<["y" := [1]]> ∅);
     MapperController._source_points := Some ∅;
     MapperController._animator := None;
     MapperController._last_mapped_points_df := Some (table [0] [0]) |}.

(** A view with the two visible axes [a] and [b] and no ignored label. *)
Definition two_axes_view : StarCoordinatesView.t :=
  {| StarCoordinatesView._axis_elements :=
       <["a" := StarCoordinatesView.mkAxis true]>
         (<["b" := StarCoordinatesView.mkAxis true]> ∅);
     StarCoordinatesView._input_data_controller := ∅;
     StarCoordinatesView._mappings_executed := 0 |}.

(** The animator a mapper controller holds once a [MappingAnimator] is
    attached: its [get_animation_sequence] with the default [max_time=2].
    Before a first mapping the controller hands it [None], on which
    [original_points.copy()] raises. *)
Definition attached_animator (solve : Q * Q -> Q * Q -> Q * Q) (elapsed : Q)
    (original_points : option DataFrame) (mapped_points : DataFrame)
  : MappingAnimator.M unit :=
  match original_points with
  | None => MappingAnimator.lift (Raise AttributeError)
  | Some original_points =>
      MappingAnimator.get_animation_sequence solve elapsed original_points
        mapped_points 2
  end.

(** * Properties *)

(** ** Numbers *)

Lemma int_below_one (x : Q) : x < 1 -> (int x <= 0)%Z.
Proof.
  destruct x as [n d]. unfold Qlt, int. cbn [Qnum Qden]. intros H.
  assert (Hd : (0 < Z.pos d)%Z) by lia.
  destruct (Z.neg_nonneg_cases n) as [Hn | Hn].
  - rewrite <- (Z.opp_involutive n), Z.quot_opp_l by lia.
    assert (0 <= - n ÷ Z.pos d)%Z by (apply Z.quot_pos; lia). lia.
  - rewrite Z.quot_small; lia.
Qed.

Lemma int_inject_Z (z : Z) : int (inject_Z z) = z.
Proof. unfold int, inject_Z. cbn [Qnum Qden]. apply Z.quot_1_r. Qed.

(** Truncation keeps the sign and drops less than one unit. *)
Lemma int_nonneg (x : Q) :
  0 <= x -> inject_Z (int x) <= x /\ x < inject_Z (int x) + 1.
Proof.
  destruct x as [n d]. unfold Qle, Qlt, int, Qplus, inject_Z. cbn [Qnum Qden].
  intros H. assert (Hn : (0 <= n)%Z) by lia.
  pose proof (Z.quot_rem' n (Z.pos d)) as E.
  pose proof (Z.rem_bound_pos n (Z.pos d) Hn ltac:(lia)) as B.
  split; nia.
Qed.

Lemma int_nonpos (x : Q) :
  x <= 0 -> x <= inject_Z (int x) /\ inject_Z (int x) - 1 < x.
Proof.
  destruct x as [n d]. unfold Qle, Qlt, int, Qminus, Qplus, Qopp, inject_Z.
  cbn [Qnum Qden]. intros H. assert (Hn : (n <= 0)%Z) by lia.
  pose proof (Z.quot_rem' n (Z.pos d)) as E.
  pose proof (Z.rem_bound_pos_neg n (Z.pos d) ltac:(lia) Hn) as B.
  split; nia.
Qed.

(** ** The line solver *)

Lemma line_through_first (x0 x1 y0 y1 : Q) (m c : Q) :
  line_equation.calculate_line_equation (x0, x1) (y0, y1) = (m, c) ->
  m * x0 + c == y0.
Proof.
  unfold line_equation.calculate_line_equation.
  destruct (Qeq_bool x0 x1); intros [= <- <-]; ring.
Qed.

Lemma line_through_second (x0 x1 y0 y1 : Q) (m c : Q) :
  ~ x0 == x1 ->
  line_equation.calculate_line_equation (x0, x1) (y0, y1) = (m, c) ->
  m * x1 + c == y1.
Proof.
  unfold line_equation.calculate_line_equation. intros Hne.
  destruct (Qeq_bool x0 x1) eqn:E.
  - apply Qeq_bool_iff in E. contradiction.
  - intros [= <- <-]. field. intros Hz. apply Hne.
    rewrite <- (Qplus_0_l x0), <- Hz. ring.
Qed.

(** ** Point-size scaler *)

Section PointSize.

Import PointSizeController.

Lemma size_line (initial_size final_size : Z) :
  _calculate_line_equation initial_size final_size =
    ((inject_Z final_size - inject_Z initial_size) / (1 - 0),
     inject_Z initial_size
     - (inject_Z final_size - inject_Z initial_size) / (1 - 0) * 0).
Proof. reflexivity. Qed.

Lemma size_line_slope (initial_size final_size : Z) (m c : Q) :
  _calculate_line_equation initial_size final_size = (m, c) ->
  m == inject_Z final_size - inject_Z initial_size /\ c == inject_Z initial_size.
Proof. rewrite size_line. intros [= <- <-]. split; field. Qed.

Lemma update_sizes_sizes (self : t) (m c : Q) :
  _calculate_line_equation (_initial_size self) (_final_size self) = (m, c) ->
  sizes (update_sizes self)
  = Some (map (fun e => m * e + c) (get_last_point_error (_error_controller self))).
Proof.
  intros E. unfold sizes, update_sizes. rewrite E.
  cbn [_point_controller update_sizes_column data].
  apply lookup_insert_eq.
Qed.

Lemma update_sizes_bounds (self : t) :
  get_initial_size (update_sizes self) = get_initial_size self
  /\ get_final_size (update_sizes self) = get_final_size self.
Proof.
  unfold update_sizes, get_initial_size, get_final_size.
  destruct (_calculate_line_equation _ _). split; reflexivity.
Qed.

Lemma valid_size_max (size : Q) : _get_valid_size size = Z.max 1 (int size).
Proof. unfold _get_valid_size, MIN_SIZE. destruct (Z.leb_spec 1 (int size)); lia. Qed.

End PointSize.

(** C4: [update_sizes] gives every point the size [m * e + c] of its
    normalized error [e], where [(m, c)] is the line through the control
    points [(0, initial_size)] and [(1, final_size)]; the controller keeps
    that pair; with bounds 4 and 12 the error 1/2 gets the size 8. *)
Theorem update_sizes_line_equation (self : PointSizeController.t) :
  (exists m c : Q,
      m * 0 + c == inject_Z (PointSizeController.get_initial_size self)
      /\ m * 1 + c == inject_Z (PointSizeController.get_final_size self)
      /\ PointSizeController._m (PointSizeController.update_sizes self) = m
      /\ PointSizeController._c (PointSizeController.update_sizes self) = c
      /\ PointSizeController.sizes (PointSizeController.update_sizes self)
         = Some (map (fun e => m * e + c)
                     (get_last_point_error
                        (PointSizeController._error_controller self))))
  /\ (forall (pc : PointController) (m0 c0 : Q),
         exists s : Q,
           PointSizeController.sizes
             (PointSizeController.update_sizes
                (PointSizeController.mk (mkErrorController [1 # 2]) pc m0 c0 4 12))
           = Some [s]
           /\ s == 8).
Proof.
  split.
  - destruct (PointSizeController._calculate_line_equation
                (PointSizeController._initial_size self)
                (PointSizeController._final_size self)) as [m c] eqn:E.
    exists m, c.
    pose proof (line_through_first _ _ _ _ _ _ E) as H0.
    assert (H01 : ~ 0 == 1) by (compute; discriminate).
    pose proof (line_through_second 0 1 _ _ _ _ H01 E) as H1.
    repeat split; try assumption.
    + unfold PointSizeController.update_sizes. rewrite E. reflexivity.
    + unfold PointSizeController.update_sizes. rewrite E. reflexivity.
    + apply update_sizes_sizes, E.
  - intros pc m0 c0.
    pose proof (update_sizes_sizes
                  (PointSizeController.mk (mkErrorController [1 # 2]) pc m0 c0 4 12)
                  _ _ (size_line 4 12)) as H.
    eexists. split; [exact H |]. vm_compute. reflexivity.
Qed.

(** C6: a value below 1 given to [set_initial_size] or [set_final_size]
    stores the bound 1, which the getter then returns. *)
Theorem set_size_below_one_clamps (self : PointSizeController.t) (new_size : Q) :
  new_size < 1 ->
  PointSizeController.get_initial_size
    (PointSizeController.set_initial_size self new_size) = 1%Z
  /\ PointSizeController.get_final_size
       (PointSizeController.set_final_size self new_size) = 1%Z.
Proof.
  intros H. apply int_below_one in H.
  unfold PointSizeController.set_initial_size, PointSizeController.set_final_size.
  split.
  - rewrite (proj1 (update_sizes_bounds _)).
    unfold PointSizeController.get_initial_size.
    cbn [PointSizeController._initial_size]. rewrite valid_size_max. lia.
  - rewrite (proj2 (update_sizes_bounds _)).
    unfold PointSizeController.get_final_size.
    cbn [PointSizeController._final_size]. rewrite valid_size_max. lia.
Qed.

Lemma set_size_below_one_clamps_witness :
  (-7 # 2) < 1
  /\ PointSizeController.get_initial_size
       (PointSizeController.set_initial_size
          (PointSizeController.__init__ (mkErrorController [0; 1 # 2; 1])
             (mkPointController 3 ∅ []) 4 12) (-7 # 2)) = 1%Z
  /\ PointSizeController.get_final_size
       (PointSizeController.set_final_size
          (PointSizeController.__init__ (mkErrorController [0; 1 # 2; 1])
             (mkPointController 3 ∅ []) 4 12) (-7 # 2)) = 1%Z.
Proof.
  split; [reflexivity |].
  apply (set_size_below_one_clamps
           (PointSizeController.__init__ (mkErrorController [0; 1 # 2; 1])
              (mkPointController 3 ∅ []) 4 12) (-7 # 2)).
  reflexivity.
Defined.

(** C7: for normalized errors [e1 < e2] and fixed bounds, the size computed
    for [e2] is strictly greater than the one for [e1] when
    [final_size > initial_size], and strictly smaller when
    [final_size < initial_size]. *)
Theorem update_sizes_monotonic (pc : PointController) (m0 c0 : Q)
    (initial_size final_size : Z) (e1 e2 : Q) :
  e1 < e2 ->
  exists s1 s2 : Q,
    PointSizeController.sizes
      (PointSizeController.update_sizes
         (PointSizeController.mk (mkErrorController [e1; e2]) pc m0 c0
            initial_size final_size))
    = Some [s1; s2]
    /\ ((initial_size < final_size)%Z -> s1 < s2)
    /\ ((final_size < initial_size)%Z -> s2 < s1).
Proof.
  intros He.
  destruct (PointSizeController._calculate_line_equation initial_size final_size)
    as [m c] eqn:E.
  exists (m * e1 + c), (m * e2 + c). split; [| split].
  - exact (update_sizes_sizes
             (PointSizeController.mk (mkErrorController [e1; e2]) pc m0 c0
                initial_size final_size) m c E).
  - intros Hlt. destruct (size_line_slope _ _ _ _ E) as [Hm _].
    assert (0 < m)
      by (rewrite Hm; unfold Qminus; rewrite <- Qlt_minus_iff, <- Zlt_Qlt; exact Hlt).
    apply Qplus_lt_l. rewrite !(Qmult_comm m). apply Qmult_lt_r; assumption.
  - intros Hlt. destruct (size_line_slope _ _ _ _ E) as [Hm _].
    assert (Hm' : - m == inject_Z initial_size + - inject_Z final_size)
      by (rewrite Hm; ring).
    assert (Hneg : 0 < - m)
      by (rewrite Hm', <- Qlt_minus_iff, <- Zlt_Qlt; exact Hlt).
    apply Qlt_minus_iff.
    assert (Heq : m * e1 + c + - (m * e2 + c) == - m * (e2 + - e1)) by ring.
    rewrite Heq. apply Qmult_lt_0_compat; [exact Hneg |].
    apply Qlt_minus_iff in He. exact He.
Qed.

Lemma update_sizes_monotonic_witness :
  (1 # 4) < (3 # 4)
  /\ exists s1 s2 : Q,
      PointSizeController.sizes
        (PointSizeController.update_sizes
           (PointSizeController.mk (mkErrorController [1 # 4; 3 # 4])
              (mkPointController 2 ∅ []) 0 0 4 12))
      = Some [s1; s2]
      /\ ((4 < 12)%Z -> s1 < s2)
      /\ ((12 < 4)%Z -> s2 < s1).
Proof.
  split; [reflexivity |].
  apply (update_sizes_monotonic (mkPointController 2 ∅ []) 0 0 4 12 (1 # 4) (3 # 4)).
  reflexivity.
Defined.

(** C8: [set_single_size] overwrites the size of every point with one and
    the same value, without going through the line equation, and leaves the
    stored initial and final size as they were. *)
Theorem set_single_size_frame (self : PointSizeController.t) (new_size : Q) :
  (exists v : Q,
      PointSizeController.sizes (PointSizeController.set_single_size self new_size)
      = Some (replicate
                (get_number_of_points (PointSizeController._point_controller self)) v))
  /\ PointSizeController.get_initial_size
       (PointSizeController.set_single_size self new_size)
     = PointSizeController.get_initial_size self
  /\ PointSizeController.get_final_size
       (PointSizeController.set_single_size self new_size)
     = PointSizeController.get_final_size self
  /\ PointSizeController._m (PointSizeController.set_single_size self new_size)
     = PointSizeController._m self
  /\ PointSizeController._c (PointSizeController.set_single_size self new_size)
     = PointSizeController._c self.
Proof.
  split; [| repeat split].
  exists (inject_Z (PointSizeController._get_valid_size new_size)).
  unfold PointSizeController.sizes, PointSizeController.set_single_size.
  cbn [PointSizeController._point_controller update_sizes_column data].
  rewrite lookup_insert_eq. f_equal.
  generalize 0%nat at 1.
  induction (get_number_of_points _) as [| n IH]; intros k; cbn; [reflexivity |].
  f_equal. apply IH.
Qed.

(** C10: the size [set_single_size] writes is the input truncated to an
    integer and then raised to the minimum valid size: every size it writes is
    an integer [>= 1], whatever the input. *)
Theorem set_single_size_valid (self : PointSizeController.t) (new_size : Q) :
  exists ss : Series,
    PointSizeController.sizes (PointSizeController.set_single_size self new_size)
    = Some ss
    /\ length ss = get_number_of_points (PointSizeController._point_controller self)
    /\ Forall (fun s => s = inject_Z (Z.max 1 (int new_size))) ss
    /\ (1 <= Z.max 1 (int new_size))%Z.
Proof.
  eexists. split; [| split; [| split]].
  - unfold PointSizeController.sizes, PointSizeController.set_single_size.
    cbn [PointSizeController._point_controller update_sizes_column data].
    apply lookup_insert_eq.
  - rewrite length_map, length_seq. reflexivity.
  - rewrite Forall_forall. intros s Hs. apply list_elem_of_In in Hs.
    apply in_map_iff in Hs. destruct Hs as [i [<- _]].
    rewrite valid_size_max. reflexivity.
  - lia.
Qed.

(** ** Mapping animator *)

#[export] Instance interp_proper (step total_steps : Z) :
  Proper (Qeq ==> Qeq ==> Qeq) (interp step total_steps).
Proof. intros a b Hab c d Hcd. unfold interp. rewrite Hab, Hcd. reflexivity. Qed.

Section AnimatorLemmas.

Import MappingAnimator.

Lemma getitem_Some (df : DataFrame) (name : string) (s : Series) :
  df !! name = Some s -> getitem df name = Ok s.
Proof. unfold getitem. intros ->. reflexivity. Qed.

Lemma series_get_middle (pre rest : Series) (v : Q) :
  series_get (pre ++ v :: rest) (length pre) = Ok v.
Proof. unfold series_get. rewrite list_lookup_middle; reflexivity. Qed.

Lemma x_body_middle (final_points : DataFrame) (step total_steps : Z)
    (pre rest fpre frest : Series) (r fr : Q) (df : DataFrame) :
  final_points !! "x" = Some (fpre ++ fr :: frest) ->
  length pre = length fpre ->
  x_body final_points step total_steps (<["x" := pre ++ r :: rest]> df) (length pre)
  = Ok (<["x" := (pre ++ [interp step total_steps r fr]) ++ rest]> df).
Proof.
  intros Hf Hpre. unfold x_body.
  rewrite (getitem_Some _ _ _ (lookup_insert_eq _ _ _)). cbn [rbind].
  rewrite series_get_middle. cbn [rbind].
  rewrite (getitem_Some _ _ _ Hf). cbn [rbind].
  rewrite Hpre at 1. rewrite series_get_middle. cbn [rbind].
  rewrite insert_insert_eq.
  rewrite <- (Nat.add_0_r (length pre)), insert_app_r.
  rewrite <- app_assoc. reflexivity.
Qed.

(** The in-place loop of [step_x_exponential], started in the middle: the
    positions before [length pre] are done, those of [rest] remain. *)
Lemma step_x_exponential_loop (final_points : DataFrame) (step total_steps : Z)
    (rest pre fpre frest : Series) (df : DataFrame) :
  final_points !! "x" = Some (fpre ++ frest) ->
  length pre = length fpre ->
  (length rest <= length frest)%nat ->
  for_each (x_body final_points step total_steps)
    (<["x" := pre ++ rest]> df) (seq (length pre) (length rest))
  = Ok (<["x" := pre ++ zip_with (interp step total_steps) rest frest]> df).
Proof.
  revert pre fpre frest df.
  induction rest as [| r rest IH]; intros pre fpre frest df Hf Hpre Hlen.
  - reflexivity.
  - destruct frest as [| fr frest]; [cbn in Hlen; lia |].
    cbn [length seq for_each].
    rewrite (x_body_middle _ _ _ _ _ _ _ _ _ _ Hf Hpre). cbn [rbind].
    replace (S (length pre)) with (length (pre ++ [interp step total_steps r fr]))
      by (rewrite length_app; cbn; lia).
    rewrite (IH (pre ++ [interp step total_steps r fr]) (fpre ++ [fr]) frest df).
    + rewrite <- app_assoc. reflexivity.
    + rewrite <- app_assoc. exact Hf.
    + rewrite !length_app. cbn. lia.
    + cbn in Hlen. lia.
Qed.

Lemma step_x_exponential_ok (df final_points : DataFrame) (step total_steps : Z)
    (sx fx : Series) :
  df !! "x" = Some sx ->
  final_points !! "x" = Some fx ->
  (length sx <= length fx)%nat ->
  step_x_exponential df final_points step total_steps
  = Ok (<["x" := zip_with (interp step total_steps) sx fx]> df).
Proof.
  intros Hx Hf Hlen. unfold step_x_exponential.
  rewrite (getitem_Some _ _ _ Hx). cbn [rbind].
  rewrite <- (insert_id df "x" sx Hx) at 1.
  exact (step_x_exponential_loop final_points step total_steps sx [] [] fx df
           Hf eq_refl Hlen).
Qed.




Lemma evaluate_y_ok (df : DataFrame) (m_l c_l xs : Series) :
  df !! "m" = Some m_l ->
  df !! "x" = Some xs ->
  df !! "c" = Some c_l ->
  evaluate_y df (Add (Mul (Col "m") (Col "x")) (Col "c"))
  = Ok (<["y" := line_y m_l c_l xs]> df).
Proof.
  intros Hm Hx Hc. unfold evaluate_y. cbn [eval].
  rewrite (getitem_Some _ _ _ Hm), (getitem_Some _ _ _ Hx),
    (getitem_Some _ _ _ Hc).
  reflexivity.
Qed.

Lemma frames_pushes (l : list (Series * Series)) (pc : PointController) :
  frames (pushes l pc) = frames pc ++ l.
Proof.
  revert pc. induction l as [| f l IH]; intros pc; cbn [pushes fold_left].
  - symmetry. apply app_nil_r.
  - change (frames (pushes l (update_coordinates (fst f) (snd f) pc))
            = frames pc ++ f :: l).
    rewrite IH. cbn [update_coordinates frames]. destruct f as [x y].
    rewrite <- app_assoc. reflexivity.
Qed.

(** One frame: the x column moves one step, y follows from the line, and
    both are pushed.  The table keeps its [m] and [c] columns. *)
Lemma frame_body_ok (mapped_points df : DataFrame) (total_steps : Z)
    (m_l c_l xs fx : Series) (k : nat) (pc : PointController) :
  df !! "x" = Some xs ->
  df !! "m" = Some m_l ->
  df !! "c" = Some c_l ->
  mapped_points !! "x" = Some fx ->
  (length xs <= length fx)%nat ->
  let xs' := zip_with (interp (Z.of_nat k) total_steps) xs fx in
  frame_body mapped_points (Add (Mul (Col "m") (Col "x")) (Col "c")) total_steps df k pc
  = (update_coordinates xs' (line_y m_l c_l xs') pc,
     Ok (<["y" := line_y m_l c_l xs']> (<["x" := xs']> df))).
Proof.
  intros Hx Hm Hc Hf Hlen xs'. unfold frame_body, bind, lift.
  rewrite (step_x_exponential_ok df mapped_points _ _ xs fx Hx Hf Hlen).
  fold xs'.
  rewrite (evaluate_y_ok (<["x" := xs']> df) m_l c_l xs').
  - rewrite (getitem_Some _ _ xs'), (getitem_Some _ _ (line_y m_l c_l xs')).
    + reflexivity.
    + apply lookup_insert_eq.
    + rewrite lookup_insert_ne by discriminate. apply lookup_insert_eq.
  - rewrite lookup_insert_ne by discriminate. exact Hm.
  - apply lookup_insert_eq.
  - rewrite lookup_insert_ne by discriminate. exact Hc.
Qed.

Lemma frames_loop (mapped_points : DataFrame) (total_steps : Z)
    (m_l c_l fx : Series) (n k : nat) (df : DataFrame) (xs : Series)
    (pc : PointController) :
  df !! "x" = Some xs ->
  df !! "m" = Some m_l ->
  df !! "c" = Some c_l ->
  mapped_points !! "x" = Some fx ->
  (length xs <= length fx)%nat ->
  exists df' : DataFrame,
    for_eachM
      (frame_body mapped_points (Add (Mul (Col "m") (Col "x")) (Col "c")) total_steps)
      df (seq k n) pc
    = (pushes (map (fun xs => (xs, line_y m_l c_l xs))
                   (run_steps total_steps fx xs k n)) pc,
       Ok df').
Proof.
  revert k df xs pc.
  induction n as [| n IH]; intros k df xs pc Hx Hm Hc Hf Hlen.
  - exists df. reflexivity.
  - cbn [seq for_eachM run_steps map pushes fold_left fst snd].
    unfold bind at 1.
    rewrite (frame_body_ok mapped_points df total_steps m_l c_l xs fx k pc
               Hx Hm Hc Hf Hlen).
    cbn zeta.
    apply IH.
    + rewrite lookup_insert_ne by discriminate. apply lookup_insert_eq.
    + rewrite !lookup_insert_ne by discriminate. exact Hm.
    + rewrite !lookup_insert_ne by discriminate. exact Hc.
    + exact Hf.
    + rewrite length_zip_with. lia.
Qed.

Lemma length_equations (solve : Q * Q -> Q * Q -> Q * Q) (ox oy mx my : Series) :
  length ox = length oy -> length mx = length my -> length ox = length mx ->
  length (equations solve ox oy mx my) = length ox.
Proof.
  intros H1 H2 H3. unfold equations.
  rewrite length_map, !length_zip_with. lia.
Qed.

(** The whole call: it raises nothing and pushes exactly [animation_frames]. *)
Lemma get_animation_sequence_frames (solve : Q * Q -> Q * Q -> Q * Q) (elapsed : Q)
    (original_points mapped_points : DataFrame) (max_time : Q)
    (ox oy mx my : Series) (pc : PointController) :
  layout original_points ox oy ->
  layout mapped_points mx my ->
  length ox = length mx ->
  ~ elapsed == 0 ->
  get_animation_sequence solve elapsed original_points mapped_points max_time pc
  = (pushes (animation_frames solve (Qfloor (max_time / elapsed)) ox oy mx my) pc,
     Ok tt).
Proof.
  intros (Hox & Hoy & Hlo) (Hmx & Hmy & Hlm) Hlen Hne.
  set (m_l := map fst (equations solve ox oy mx my)).
  set (c_l := map snd (equations solve ox oy mx my)).
  set (base := <["c" := c_l]> (<["m" := m_l]> original_points)).
  set (formula := Add (Mul (Col "m") (Col "x")) (Col "c")).
  assert (Hbx : base !! "x" = Some ox)
    by (unfold base; rewrite !lookup_insert_ne by discriminate; exact Hox).
  assert (Hbm : base !! "m" = Some m_l)
    by (unfold base; rewrite lookup_insert_ne by discriminate;
        apply lookup_insert_eq).
  assert (Hbc : base !! "c" = Some c_l) by apply lookup_insert_eq.
  assert (Heq : _get_equation_dataframe solve original_points mapped_points
                = Ok (base, formula)).
  { unfold _get_equation_dataframe.
    rewrite (getitem_Some _ _ _ Hox), (getitem_Some _ _ _ Hmx),
      (getitem_Some _ _ _ Hoy), (getitem_Some _ _ _ Hmy).
    cbn [rbind]. fold (equations solve ox oy mx my). fold m_l. fold c_l.
    assert (Hl : length m_l = length ox)
      by (unfold m_l; rewrite length_map; apply length_equations; assumption).
    rewrite Hl, Nat.eqb_refl. reflexivity. }
  set (probe := zip_with (interp 0 1) ox mx).
  assert (Hprobe :
            calculate_time_cost elapsed base mapped_points formula pc
            = (update_coordinates probe (line_y m_l c_l probe) pc,
               Ok (<["y" := line_y m_l c_l probe]> (<["x" := probe]> base),
                   elapsed))).
  { unfold calculate_time_cost, bind, lift, push, ret.
    rewrite (step_x_exponential_ok base mapped_points 0 1 ox mx Hbx Hmx)
      by lia.
    fold probe.
    rewrite (evaluate_y_ok (<["x" := probe]> base) m_l c_l probe).
    - rewrite (getitem_Some _ _ probe), (getitem_Some _ _ (line_y m_l c_l probe)).
      + destruct (Qeq_bool elapsed 0) eqn:E; [| reflexivity].
        apply Qeq_bool_iff in E. contradiction.
      + apply lookup_insert_eq.
      + rewrite lookup_insert_ne by discriminate. apply lookup_insert_eq.
    - rewrite lookup_insert_ne by discriminate. exact Hbm.
    - apply lookup_insert_eq.
    - rewrite lookup_insert_ne by discriminate. exact Hbc. }
  set (T := Qfloor (max_time / elapsed)).
  destruct (frames_loop mapped_points T m_l c_l mx (Z.to_nat T) 0
              (<["y" := line_y m_l c_l probe]> (<["x" := probe]> base)) probe
              (update_coordinates probe (line_y m_l c_l probe) pc))
    as [df' Hloop].
  - rewrite lookup_insert_ne by discriminate. apply lookup_insert_eq.
  - rewrite !lookup_insert_ne by discriminate. exact Hbm.
  - rewrite !lookup_insert_ne by discriminate. exact Hbc.
  - exact Hmx.
  - unfold probe. rewrite length_zip_with. lia.
  - unfold get_animation_sequence.
    unfold bind at 1. unfold lift at 1. rewrite Heq. cbn [fst snd].
    unfold bind at 1. rewrite Hprobe. cbn [fst snd]. fold T.
    unfold bind at 1.
    change (for_eachM _ _ (range0 T))
      with (for_eachM (frame_body mapped_points formula T)
              (<["y" := line_y m_l c_l probe]> (<["x" := probe]> base))
              (seq 0 (Z.to_nat T))).
    subst formula. rewrite Hloop.
    unfold bind, lift, push.
    rewrite (getitem_Some _ _ _ Hmx), (getitem_Some _ _ _ Hmy).
    f_equal. unfold animation_frames. fold m_l. fold c_l. fold probe.
    cbn [pushes fold_left fst snd]. unfold pushes. rewrite fold_left_app.
    reflexivity.
Qed.

End AnimatorLemmas.

(** *** One point along the steps *)

Lemma interp_0 (total_steps : Z) (x xf : Q) : interp 0 total_steps x xf == x.
Proof. unfold interp, Qdiv. ring. Qed.


Lemma length_run_steps (total_steps : Z) (fx xs : Series) (k n : nat) :
  length (run_steps total_steps fx xs k n) = n.
Proof.
  revert xs k. induction n as [| n IH]; intros xs k; cbn; [reflexivity |].
  rewrite IH. reflexivity.
Qed.

Lemma lookup_run_steps (total_steps : Z) (fx : Series) (n : nat) :
  forall (xs : Series) (k s i : nat) (X : Series) (x xf : Q),
    run_steps total_steps fx xs k n !! s = Some X ->
    xs !! i = Some x ->
    fx !! i = Some xf ->
    X !! i = Some (x_run total_steps xf x k (S s)).
Proof.
  induction n as [| n IH]; intros xs k s i X x xf HX Hx Hf.
  - discriminate.
  - cbn [run_steps] in HX.
    assert (Hstep : zip_with (interp (Z.of_nat k) total_steps) xs fx !! i
                    = Some (interp (Z.of_nat k) total_steps x xf))
      by (rewrite lookup_zip_with, Hx, Hf; reflexivity).
    destruct s as [| s].
    + injection HX as <-. exact Hstep.
    + exact (IH _ (S k) s i X _ xf HX Hstep Hf).
Qed.

Lemma x_run_snoc (total_steps : Z) (xf : Q) (n : nat) :
  forall (x : Q) (k : nat),
    x_run total_steps xf x k (S n)
    = interp (Z.of_nat (k + n)) total_steps (x_run total_steps xf x k n) xf.
Proof.
  induction n as [| n IH]; intros x k.
  - cbn [x_run]. rewrite Nat.add_0_r. reflexivity.
  - change (x_run total_steps xf x k (S (S n)))
      with (x_run total_steps xf (interp (Z.of_nat k) total_steps x xf) (S k) (S n)).
    rewrite IH. cbn [x_run]. rewrite Nat.add_succ_r. reflexivity.
Qed.

(** From a start equal to [x0], the steps [0 .. s] leave [exp_x s]. *)
Lemma x_run_exp (total_steps : Z) (x0 xf x : Q) (s : nat) :
  x == x0 ->
  x_run total_steps xf x 0 (S s) == exp_x total_steps x0 xf s.
Proof.
  intros Hx. induction s as [| s IH].
  - cbn [x_run exp_x]. rewrite interp_0. exact Hx.
  - rewrite x_run_snoc. cbn [exp_x Nat.add]. rewrite IH. reflexivity.
Qed.

Lemma exp_x_first_steps (total_steps : Z) (x0 xf : Q) (s : nat) :
  (s <= 1)%nat ->
  exp_x total_steps x0 xf s
  == x0 + inject_Z (Z.of_nat s) / inject_Z total_steps * (xf - x0).
Proof.
  intros Hs. destruct s as [| [| s]]; [| | lia].
  - cbn [exp_x]. unfold Qdiv. change (inject_Z (Z.of_nat 0)) with 0. ring.
  - cbn [exp_x]. unfold interp, Qdiv. ring.
Qed.

(** A point with the same x at both ends stays there. *)
Lemma exp_x_fixed (total_steps : Z) (x0 xf : Q) (s : nat) :
  x0 == xf -> exp_x total_steps x0 xf s == x0.
Proof.
  intros H. induction s as [| s IH]; [reflexivity |].
  cbn [exp_x]. rewrite IH. unfold interp, Qdiv. rewrite H. ring.
Qed.

Lemma lookup_equations (solve : Q * Q -> Q * Q -> Q * Q) (ox oy mx my : Series)
    (i : nat) (x0 y0 xf yf : Q) :
  ox !! i = Some x0 -> oy !! i = Some y0 ->
  mx !! i = Some xf -> my !! i = Some yf ->
  equations solve ox oy mx my !! i = Some (solve (x0, xf) (y0, yf)).
Proof.
  intros H1 H2 H3 H4. unfold equations.
  change (map ?f ?l) with (f <$> l).
  rewrite list_lookup_fmap, !lookup_zip_with, H1, H2, H3, H4. reflexivity.
Qed.

Lemma lookup_line_y (m_l c_l xs : Series) (i : nat) (m c x : Q) :
  m_l !! i = Some m -> c_l !! i = Some c -> xs !! i = Some x ->
  line_y m_l c_l xs !! i = Some (m * x + c).
Proof.
  intros Hm Hc Hx. unfold line_y.
  rewrite !lookup_zip_with, Hm, Hx, Hc. reflexivity.
Qed.

(** The frame of step [s] of a call, seen at one point. *)
Lemma animation_frames_step (solve : Q * Q -> Q * Q -> Q * Q) (total_steps : Z)
    (ox oy mx my : Series) (s i : nat) (x0 y0 xf yf : Q) :
  (Z.of_nat s < total_steps)%Z ->
  ox !! i = Some x0 -> oy !! i = Some y0 ->
  mx !! i = Some xf -> my !! i = Some yf ->
  exists (X Y : Series) (xv : Q),
    animation_frames solve total_steps ox oy mx my !! S s = Some (X, Y)
    /\ X !! i = Some xv
    /\ xv == exp_x total_steps x0 xf s
    /\ Y !! i = Some (fst (solve (x0, xf) (y0, yf)) * xv
                      + snd (solve (x0, xf) (y0, yf))).
Proof.
  intros Hs H1 H2 H3 H4.
  set (probe := zip_with (interp 0 1) ox mx).
  assert (Hp : probe !! i = Some (interp 0 1 x0 xf))
    by (unfold probe; rewrite lookup_zip_with, H1, H3; reflexivity).
  destruct (lookup_lt_is_Some_2
              (run_steps total_steps mx probe 0 (Z.to_nat total_steps)) s)
    as [X HX]; [rewrite length_run_steps; lia |].
  pose proof (lookup_run_steps _ _ _ _ _ _ i _ _ _ HX Hp H3) as HXi.
  pose proof (lookup_equations solve ox oy mx my i x0 y0 xf yf H1 H2 H3 H4) as He.
  exists X, (line_y (map fst (equations solve ox oy mx my))
                    (map snd (equations solve ox oy mx my)) X),
    (x_run total_steps xf (interp 0 1 x0 xf) 0 (S s)).
  split; [| split; [exact HXi | split]].
  - unfold animation_frames. fold probe. rewrite lookup_cons.
    rewrite lookup_app_l by (rewrite length_map, length_run_steps; lia).
    change (map ?f ?l) with (f <$> l) at 1.
    rewrite list_lookup_fmap, HX. reflexivity.
  - apply x_run_exp, interp_0.
  - apply lookup_line_y; [| | exact HXi];
      change (map ?f ?l) with (f <$> l); rewrite list_lookup_fmap, He; reflexivity.
Qed.

Lemma layout_table (x y : Series) : length x = length y -> layout (table x y) x y.
Proof.
  intros H. unfold layout, table. split; [| split; [| exact H]].
  - apply lookup_insert_eq.
  - rewrite lookup_insert_ne by discriminate. apply lookup_insert_eq.
Qed.

Lemma get_animation_sequence_step (solve : Q * Q -> Q * Q -> Q * Q) (elapsed : Q)
    (original_points mapped_points : DataFrame) (max_time : Q)
    (ox oy mx my : Series) (pc : PointController) (s i : nat) (x0 y0 xf yf : Q) :
  layout original_points ox oy ->
  layout mapped_points mx my ->
  length ox = length mx ->
  ~ elapsed == 0 ->
  (Z.of_nat s < Qfloor (max_time / elapsed))%Z ->
  ox !! i = Some x0 -> oy !! i = Some y0 ->
  mx !! i = Some xf -> my !! i = Some yf ->
  exists (pc' : PointController) (X Y : Series) (xv : Q),
    MappingAnimator.get_animation_sequence solve elapsed original_points
      mapped_points max_time pc = (pc', Ok tt)
    /\ frames pc' !! (length (frames pc) + S s)%nat = Some (X, Y)
    /\ X !! i = Some xv
    /\ xv == exp_x (Qfloor (max_time / elapsed)) x0 xf s
    /\ Y !! i = Some (fst (solve (x0, xf) (y0, yf)) * xv
                      + snd (solve (x0, xf) (y0, yf))).
Proof.
  intros Ho Hm Hlen Hne Hs H1 H2 H3 H4.
  destruct (animation_frames_step solve _ ox oy mx my s i x0 y0 xf yf Hs H1 H2 H3 H4)
    as (X & Y & xv & HF & HX & Hxv & HY).
  exists (pushes (animation_frames solve (Qfloor (max_time / elapsed)) ox oy mx my) pc),
    X, Y, xv.
  split; [| split; [| split; [exact HX | split; [exact Hxv | exact HY]]]].
  - apply get_animation_sequence_frames; assumption.
  - rewrite frames_pushes, lookup_app_r by lia.
    replace (length (frames pc) + S s - length (frames pc))%nat with (S s) by lia.
    exact HF.
Qed.

(** C1, as the code has it: at every step [s < total_steps] the pushed
    layout holds, for each point, the x that [step_x_exponential] reaches by
    starting each step from the x the step before left,
    [X 0 = x_original], [X s = X (s-1) + s * (x_target - X (s-1)) / total_steps],
    which is the linear interpolation [x_original + (s/total_steps) *
    (x_target - x_original)] for [s <= 1]; and the y equal to [m * x + c] for
    the slope and intercept solved from the point's two endpoint pairs. *)
Theorem animation_step_layout (solve : Q * Q -> Q * Q -> Q * Q) (elapsed : Q)
    (original_points mapped_points : DataFrame) (max_time : Q)
    (ox oy mx my : Series) (pc : PointController) (s i : nat) (x0 y0 xf yf : Q) :
  layout original_points ox oy ->
  layout mapped_points mx my ->
  length ox = length mx ->
  ~ elapsed == 0 ->
  (Z.of_nat s < Qfloor (max_time / elapsed))%Z ->
  ox !! i = Some x0 -> oy !! i = Some y0 ->
  mx !! i = Some xf -> my !! i = Some yf ->
  exists (pc' : PointController) (X Y : Series) (xv : Q),
    MappingAnimator.get_animation_sequence solve elapsed original_points
      mapped_points max_time pc = (pc', Ok tt)
    /\ frames pc' !! (length (frames pc) + S s)%nat = Some (X, Y)
    /\ X !! i = Some xv
    /\ xv == exp_x (Qfloor (max_time / elapsed)) x0 xf s
    /\ ((s <= 1)%nat ->
        xv == x0 + inject_Z (Z.of_nat s) / inject_Z (Qfloor (max_time / elapsed))
                   * (xf - x0))
    /\ Y !! i = Some (fst (solve (x0, xf) (y0, yf)) * xv
                      + snd (solve (x0, xf) (y0, yf))).
Proof.
  intros Ho Hm Hlen Hne Hs H1 H2 H3 H4.
  destruct (get_animation_sequence_step solve elapsed original_points mapped_points
              max_time ox oy mx my pc s i x0 y0 xf yf Ho Hm Hlen Hne Hs H1 H2 H3 H4)
    as (pc' & X & Y & xv & Hrun & HF & HX & Hxv & HY).
  exists pc', X, Y, xv. repeat (split; [assumption |]). split; [| exact HY].
  intros Hs1. rewrite Hxv. apply exp_x_first_steps, Hs1.
Qed.

Lemma animation_step_layout_witness :
  exists (pc' : PointController) (X Y : Series) (xv : Q),
    MappingAnimator.get_animation_sequence line_equation.calculate_line_equation
      (2 # 3) (table [0; 1] [0; 5]) (table [3; 1] [3; 2]) 2
      (mkPointController 2 ∅ []) = (pc', Ok tt)
    /\ frames pc' !! (length (frames (mkPointController 2 ∅ [])) + 3)%nat
       = Some (X, Y)
    /\ X !! 0%nat = Some xv
    /\ xv == exp_x (Qfloor (2 / (2 # 3))) 0 3 2
    /\ ((2 <= 1)%nat ->
        xv == 0 + inject_Z (Z.of_nat 2) / inject_Z (Qfloor (2 / (2 # 3))) * (3 - 0))
    /\ Y !! 0%nat
       = Some (fst (line_equation.calculate_line_equation (0, 3) (0, 3)) * xv
               + snd (line_equation.calculate_line_equation (0, 3) (0, 3))).
Proof.
  apply (animation_step_layout line_equation.calculate_line_equation (2 # 3)
           (table [0; 1] [0; 5]) (table [3; 1] [3; 2]) 2
           [0; 1] [0; 5] [3; 1] [3; 2] (mkPointController 2 ∅ []) 2 0 0 0 3 3).
  - apply layout_table. reflexivity.
  - apply layout_table. reflexivity.
  - reflexivity.
  - compute. discriminate.
  - vm_compute. reflexivity.
  - reflexivity.
  - reflexivity.
  - reflexivity.
  - reflexivity.
Defined.

(** C1, as stated, fails: from x = 0 to x = 3 in three steps, the layout
    pushed at step 2 has x = 7/3, where the linear interpolation in
    [step/total_steps] gives [0 + (2/3) * (3 - 0) = 2]. *)
Lemma animation_step_linear_counterexample :
  Qfloor (2 / (2 # 3)) = 3%Z
  /\ snd (MappingAnimator.get_animation_sequence line_equation.calculate_line_equation
            (2 # 3) (table [0] [0]) (table [3] [3]) 2 (mkPointController 1 ∅ []))
     = Ok tt
  /\ exists (X Y : Series) (xv : Q),
      frames (fst (MappingAnimator.get_animation_sequence
                     line_equation.calculate_line_equation
                     (2 # 3) (table [0] [0]) (table [3] [3]) 2
                     (mkPointController 1 ∅ []))) !! 3%nat = Some (X, Y)
      /\ X !! 0%nat = Some xv
      /\ xv == 7 # 3
      /\ ~ xv == 0 + inject_Z 2 / inject_Z 3 * (3 - 0).
Proof.
  split; [vm_compute; reflexivity |].
  rewrite (get_animation_sequence_frames line_equation.calculate_line_equation
             (2 # 3) (table [0] [0]) (table [3] [3]) 2 [0] [0] [3] [3]
             (mkPointController 1 ∅ []))
    by (try (apply layout_table; reflexivity); try reflexivity;
        compute; discriminate).
  split; [reflexivity |].
  cbn [fst]. rewrite frames_pushes.
  eexists _, _, _. split; [| split]; [reflexivity | reflexivity |].
  split; [vm_compute; reflexivity | vm_compute; discriminate].
Qed.

(** *** The ends of the sequence *)

Lemma animation_frames_last (solve : Q * Q -> Q * Q -> Q * Q) (total_steps : Z)
    (ox oy mx my : Series) (before : list (Series * Series)) :
  last (before ++ animation_frames solve total_steps ox oy mx my) = Some (mx, my).
Proof.
  unfold animation_frames. rewrite app_comm_cons, app_assoc. apply last_snoc.
Qed.

Lemma animation_frames_first (solve : Q * Q -> Q * Q -> Q * Q) (total_steps : Z)
    (ox oy mx my : Series) (before : list (Series * Series)) :
  (before ++ animation_frames solve total_steps ox oy mx my) !! length before
  = Some (zip_with (interp 0 1) ox mx,
          line_y (map fst (equations solve ox oy mx my))
                 (map snd (equations solve ox oy mx my))
                 (zip_with (interp 0 1) ox mx)).
Proof. unfold animation_frames. apply list_lookup_middle. reflexivity. Qed.

Lemma probe_matches (total_steps : Z) (xs fx : Series) :
  (length xs <= length fx)%nat ->
  Forall2 Qeq (zip_with (interp 0 total_steps) xs fx) xs.
Proof.
  revert fx. induction xs as [| x xs IH]; intros fx Hlen; [constructor |].
  destruct fx as [| f fx]; [cbn in Hlen; lia |].
  cbn [zip_with]. constructor; [apply interp_0 |].
  apply IH. cbn in Hlen. lia.
Qed.

Section ThroughFirst.

(** A solver whose line passes through the first of its two points. *)
Variable solve : Q * Q -> Q * Q -> Q * Q.
Hypothesis solve_first :
  forall x0 x1 y0 y1 : Q,
    fst (solve (x0, x1) (y0, y1)) * x0 + snd (solve (x0, x1) (y0, y1)) == y0.

Lemma line_y_matches (ox oy mx my X : Series) :
  length ox = length oy -> length mx = length my -> length ox = length mx ->
  Forall2 Qeq X ox ->
  Forall2 Qeq
    (line_y (map fst (equations solve ox oy mx my))
            (map snd (equations solve ox oy mx my)) X) oy.
Proof.
  intros H1 H2 H3 HX.
  pose proof (Forall2_length _ _ _ HX) as HlX.
  apply Forall2_same_length_lookup. split.
  - unfold line_y. rewrite !length_zip_with, !length_map.
    rewrite (length_equations solve ox oy mx my H1 H2 H3). lia.
  - intros i yv y0 Hyv Hy0.
    assert (Hi : (i < length oy)%nat) by (eapply lookup_lt_Some; exact Hy0).
    destruct (lookup_lt_is_Some_2 ox i) as [x0 Hx0]; [lia |].
    destruct (lookup_lt_is_Some_2 mx i) as [xf Hxf]; [lia |].
    destruct (lookup_lt_is_Some_2 my i) as [yf Hyf]; [lia |].
    destruct (lookup_lt_is_Some_2 X i) as [xv Hxv]; [lia |].
    pose proof (lookup_equations solve ox oy mx my i x0 y0 xf yf Hx0 Hy0 Hxf Hyf)
      as He.
    rewrite (lookup_line_y _ _ _ i (fst (solve (x0, xf) (y0, yf)))
               (snd (solve (x0, xf) (y0, yf))) xv) in Hyv.
    + injection Hyv as <-.
      rewrite (Forall2_lookup_lr _ _ _ _ _ _ HX Hxv Hx0). apply solve_first.
    + change (map ?f ?l) with (f <$> l). rewrite list_lookup_fmap, He. reflexivity.
    + change (map ?f ?l) with (f <$> l). rewrite list_lookup_fmap, He. reflexivity.
    + exact Hxv.
Qed.

Lemma first_step_matches (total_steps : Z) (xs fx ox : Series) (n : nat) :
  (length xs <= length fx)%nat ->
  Forall2 Qeq xs ox ->
  forall X : Series,
    run_steps total_steps fx xs 0 n !! 0%nat = Some X -> Forall2 Qeq X ox.
Proof.
  intros Hlen Hxs X HX. destruct n as [| n]; [discriminate |].
  cbn [run_steps] in HX. injection HX as <-.
  etransitivity; [apply probe_matches, Hlen | exact Hxs].
Qed.

End ThroughFirst.

Lemma solver_first (x0 x1 y0 y1 : Q) :
  fst (line_equation.calculate_line_equation (x0, x1) (y0, y1)) * x0
  + snd (line_equation.calculate_line_equation (x0, x1) (y0, y1)) == y0.
Proof.
  destruct (line_equation.calculate_line_equation (x0, x1) (y0, y1)) as [m c] eqn:E.
  exact (line_through_first _ _ _ _ _ _ E).
Qed.

(** C3: whatever step count is computed (zero included), the first layout
    the call applies is the original one, up to equality of rationals (it is
    the frame of the timing probe, which runs step 0 of 1); when there is at
    least one step, the layout of step 0 is the original one as well; and the
    last layout written to the render buffer is the target layout itself. *)
Theorem animation_boundaries (elapsed : Q)
    (original_points mapped_points : DataFrame) (max_time : Q)
    (ox oy mx my : Series) (pc : PointController) :
  layout original_points ox oy ->
  layout mapped_points mx my ->
  length ox = length mx ->
  ~ elapsed == 0 ->
  exists pc' : PointController,
    MappingAnimator.get_animation_sequence line_equation.calculate_line_equation
      elapsed original_points mapped_points max_time pc = (pc', Ok tt)
    /\ (exists X Y : Series,
           frames pc' !! length (frames pc) = Some (X, Y)
           /\ Forall2 Qeq X ox /\ Forall2 Qeq Y oy)
    /\ ((0 < Qfloor (max_time / elapsed))%Z ->
        exists X Y : Series,
          frames pc' !! (length (frames pc) + 1)%nat = Some (X, Y)
          /\ Forall2 Qeq X ox /\ Forall2 Qeq Y oy)
    /\ last (frames pc') = Some (mx, my)
    /\ data pc' !! "x" = Some mx
    /\ data pc' !! "y" = Some my.
Proof.
  intros Ho Hm Hlen Hne.
  pose proof (get_animation_sequence_frames line_equation.calculate_line_equation
                elapsed original_points mapped_points max_time ox oy mx my pc
                Ho Hm Hlen Hne) as Hrun.
  destruct Ho as (Hox & Hoy & Hlo). destruct Hm as (Hmx & Hmy & Hlm).
  set (T := Qfloor (max_time / elapsed)) in *.
  set (solve := line_equation.calculate_line_equation) in *.
  set (probe := zip_with (interp 0 1) ox mx).
  assert (Hprobe : Forall2 Qeq probe ox) by (apply probe_matches; lia).
  eexists. split; [exact Hrun |]. rewrite frames_pushes.
  split; [| split; [| split; [| split]]].
  - eexists _, _. split; [apply animation_frames_first |].
    split; [exact Hprobe |].
    apply (line_y_matches solve solver_first); assumption.
  - intros HT.
    destruct (lookup_lt_is_Some_2 (run_steps T mx probe 0 (Z.to_nat T)) 0)
      as [X HX]; [rewrite length_run_steps; lia |].
    assert (HX0 : Forall2 Qeq X ox).
    { apply (first_step_matches T probe mx ox (Z.to_nat T)); [| | exact HX].
      - unfold probe. rewrite length_zip_with. lia.
      - exact Hprobe. }
    exists X, (line_y (map fst (equations solve ox oy mx my))
                      (map snd (equations solve ox oy mx my)) X).
    split; [| split; [exact HX0 |]].
    + rewrite lookup_app_r by lia.
      replace (length (frames pc) + 1 - length (frames pc))%nat with 1%nat by lia.
      unfold animation_frames. fold probe. rewrite lookup_cons.
      rewrite lookup_app_l by (rewrite length_map, length_run_steps; lia).
      change (map ?f ?l) with (f <$> l) at 1.
      rewrite list_lookup_fmap, HX. reflexivity.
    + apply (line_y_matches solve solver_first); assumption.
  - apply animation_frames_last.
  - unfold animation_frames, pushes. rewrite app_comm_cons, fold_left_app.
    cbn [fold_left fst snd update_coordinates data].
    rewrite lookup_insert_ne by discriminate. apply lookup_insert_eq.
  - unfold animation_frames, pushes. rewrite app_comm_cons, fold_left_app.
    cbn [fold_left fst snd update_coordinates data].
    apply lookup_insert_eq.
Qed.

Lemma animation_boundaries_witness :
  exists pc' : PointController,
    MappingAnimator.get_animation_sequence line_equation.calculate_line_equation
      7 (table [0; 2] [1; 2]) (table [4; 2] [3; 6]) 2
      (mkPointController 2 ∅ []) = (pc', Ok tt)
    /\ (exists X Y : Series,
           frames pc' !! length (frames (mkPointController 2 ∅ [])) = Some (X, Y)
           /\ Forall2 Qeq X [0; 2] /\ Forall2 Qeq Y [1; 2])
    /\ ((0 < Qfloor (2 / 7))%Z ->
        exists X Y : Series,
          frames pc' !! (length (frames (mkPointController 2 ∅ [])) + 1)%nat
          = Some (X, Y)
          /\ Forall2 Qeq X [0; 2] /\ Forall2 Qeq Y [1; 2])
    /\ last (frames pc') = Some ([4; 2], [3; 6])
    /\ data pc' !! "x" = Some [4; 2]
    /\ data pc' !! "y" = Some [3; 6].
Proof.
  apply (animation_boundaries 7 (table [0; 2] [1; 2]) (table [4; 2] [3; 6]) 2
           [0; 2] [1; 2] [4; 2] [3; 6] (mkPointController 2 ∅ [])).
  - apply layout_table. reflexivity.
  - apply layout_table. reflexivity.
  - reflexivity.
  - compute. discriminate.
Defined.

(** C2, as the code has it: for a point whose x is the same in the original
    and in the target layout, and a solver that returns a pair for it,
    building the sequence raises nothing; at every step the point keeps its
    x, and its y is the value [m * x + c] of the solved line at that x, the
    same at every step; the last layout written holds the target y itself. *)
Theorem animation_equal_x (solve : Q * Q -> Q * Q -> Q * Q) (elapsed : Q)
    (original_points mapped_points : DataFrame) (max_time : Q)
    (ox oy mx my : Series) (pc : PointController) (i : nat) (x0 y0 xf yf : Q) :
  layout original_points ox oy ->
  layout mapped_points mx my ->
  length ox = length mx ->
  ~ elapsed == 0 ->
  ox !! i = Some x0 -> oy !! i = Some y0 ->
  mx !! i = Some xf -> my !! i = Some yf ->
  x0 == xf ->
  exists pc' : PointController,
    MappingAnimator.get_animation_sequence solve elapsed original_points
      mapped_points max_time pc = (pc', Ok tt)
    /\ (forall s : nat,
           (Z.of_nat s < Qfloor (max_time / elapsed))%Z ->
           exists (X Y : Series) (xv yv : Q),
             frames pc' !! (length (frames pc) + S s)%nat = Some (X, Y)
             /\ X !! i = Some xv /\ Y !! i = Some yv
             /\ xv == x0
             /\ yv == fst (solve (x0, xf) (y0, yf)) * x0
                      + snd (solve (x0, xf) (y0, yf)))
    /\ (exists X Y : Series,
           last (frames pc') = Some (X, Y)
           /\ X !! i = Some xf /\ Y !! i = Some yf).
Proof.
  intros Ho Hm Hlen Hne H1 H2 H3 H4 Heq.
  pose proof (get_animation_sequence_frames solve elapsed original_points
                mapped_points max_time ox oy mx my pc Ho Hm Hlen Hne) as Hrun.
  eexists. split; [exact Hrun |]. rewrite frames_pushes. split.
  - intros s Hs.
    destruct (animation_frames_step solve _ ox oy mx my s i x0 y0 xf yf
                Hs H1 H2 H3 H4) as (X & Y & xv & HF & HX & Hxv & HY).
    assert (Hx : xv == x0) by (rewrite Hxv; apply exp_x_fixed, Heq).
    exists X, Y, xv, (fst (solve (x0, xf) (y0, yf)) * xv
                      + snd (solve (x0, xf) (y0, yf))).
    split; [| split; [exact HX | split; [exact HY | split; [exact Hx |]]]].
    + rewrite lookup_app_r by lia.
      replace (length (frames pc) + S s - length (frames pc))%nat with (S s) by lia.
      exact HF.
    + rewrite Hx. reflexivity.
  - exists mx, my. split; [apply animation_frames_last |]. split; assumption.
Qed.

Lemma animation_equal_x_witness :
  exists pc' : PointController,
    MappingAnimator.get_animation_sequence line_equation.calculate_line_equation
      1 (table [2] [2]) (table [2] [6]) 2 (mkPointController 1 ∅ []) = (pc', Ok tt)
    /\ (forall s : nat,
           (Z.of_nat s < Qfloor (2 / 1))%Z ->
           exists (X Y : Series) (xv yv : Q),
             frames pc' !! (length (frames (mkPointController 1 ∅ [])) + S s)%nat
             = Some (X, Y)
             /\ X !! 0%nat = Some xv /\ Y !! 0%nat = Some yv
             /\ xv == 2
             /\ yv == fst (line_equation.calculate_line_equation (2, 2) (2, 6)) * 2
                      + snd (line_equation.calculate_line_equation (2, 2) (2, 6)))
    /\ (exists X Y : Series,
           last (frames pc') = Some (X, Y)
           /\ X !! 0%nat = Some 2 /\ Y !! 0%nat = Some 6).
Proof.
  apply (animation_equal_x line_equation.calculate_line_equation 1
           (table [2] [2]) (table [2] [6]) 2 [2] [2] [2] [6]
           (mkPointController 1 ∅ []) 0 2 2 2 6).
  - apply layout_table. reflexivity.
  - apply layout_table. reflexivity.
  - reflexivity.
  - compute. discriminate.
  - reflexivity.
  - reflexivity.
  - reflexivity.
  - reflexivity.
  - reflexivity.
Defined.

(** C2, as stated, fails: the point (2,2) animated to (2,6) in two steps
    keeps y = 2 at step 0 and at step 1, where interpolating y directly gives
    [2 + (1/2) * (6 - 2) = 4] at step 1; y reaches 6 only with the last
    write. *)
Lemma animation_equal_x_counterexample :
  Qfloor (2 / 1) = 2%Z
  /\ snd (MappingAnimator.get_animation_sequence line_equation.calculate_line_equation
            1 (table [2] [2]) (table [2] [6]) 2 (mkPointController 1 ∅ []))
     = Ok tt
  /\ exists (X0 Y0 X1 Y1 : Series) (y_0 y_1 : Q),
      frames (fst (MappingAnimator.get_animation_sequence
                     line_equation.calculate_line_equation
                     1 (table [2] [2]) (table [2] [6]) 2
                     (mkPointController 1 ∅ []))) !! 1%nat = Some (X0, Y0)
      /\ frames (fst (MappingAnimator.get_animation_sequence
                        line_equation.calculate_line_equation
                        1 (table [2] [2]) (table [2] [6]) 2
                        (mkPointController 1 ∅ []))) !! 2%nat = Some (X1, Y1)
      /\ Y0 !! 0%nat = Some y_0
      /\ Y1 !! 0%nat = Some y_1
      /\ y_0 == 2
      /\ y_1 == 2
      /\ ~ y_1 == 2 + inject_Z 1 / inject_Z 2 * (6 - 2).
Proof.
  split; [vm_compute; reflexivity |].
  rewrite (get_animation_sequence_frames line_equation.calculate_line_equation
             1 (table [2] [2]) (table [2] [6]) 2 [2] [2] [2] [6]
             (mkPointController 1 ∅ []))
    by (try (apply layout_table; reflexivity); try reflexivity;
        compute; discriminate).
  split; [reflexivity |].
  cbn [fst]. rewrite frames_pushes.
  eexists _, _, _, _, _, _.
  split; [reflexivity |]. split; [reflexivity |].
  split; [reflexivity |]. split; [reflexivity |].
  split; [vm_compute; reflexivity |].
  split; [vm_compute; reflexivity | vm_compute; discriminate].
Qed.

(** ** Mapper controller *)

(** A raise of [execute_mapping] leaves the stored table as it was, or comes
    from the update of the source points, after the new table was stored. *)
Lemma execute_mapping_raise (self self' : MapperController.t)
    (pc pc' : PointController) (e : exn) :
  MapperController.execute_mapping self pc = (self', pc', Raise e) ->
  MapperController.get_mapped_points self' = MapperController.get_mapped_points self
  \/ exists mapped : DataFrame,
      MapperController.execute_active_algorithm self
        (MapperController.get_last_normalized_values self)
        (MapperController.get_vectors self) = Ok mapped
      /\ MapperController.get_mapped_points self' = Some mapped
      /\ (getitem mapped "x" = Raise e \/ getitem mapped "y" = Raise e).
Proof.
  unfold MapperController.execute_mapping.
  destruct (MapperController.execute_active_algorithm self _ _) as [mapped | e0].
  2: { intros [= <- <- <-]. left. reflexivity. }
  destruct (match MapperController._animator self with
            | Some g => g (MapperController._last_mapped_points_df self) mapped pc
            | None => (pc, Ok tt)
            end) as [pc1 [[] | e1]].
  2: { intros [= <- <- <-]. left. reflexivity. }
  cbn [MapperController.set_last_mapped_points_df MapperController._source_points].
  destruct (MapperController._source_points self) as [source |];
    [| discriminate].
  unfold MapperController._update_source_points.
  destruct (getitem mapped "x") as [x | ex] eqn:Ex.
  - destruct (getitem mapped "y") as [y | ey] eqn:Ey; [discriminate |].
    intros [= <- <- <-]. right. exists mapped. auto.
  - intros [= <- <- <-]. right. exists mapped. auto.
Qed.

(** C9, as the code has it: when the active mapping algorithm raises, or the
    animation that follows it raises, [execute_mapping] raises that error and
    leaves the controller, and with it the table [get_mapped_points] returns,
    as it was: the stored table is overwritten after both have completed. *)
Theorem execute_mapping_failure_keeps_table (self : MapperController.t)
    (pc : PointController) (e : exn) :
  MapperController.execute_active_algorithm self
    (MapperController.get_last_normalized_values self)
    (MapperController.get_vectors self) = Raise e
  \/ (exists (mapped : DataFrame)
             (animate : option DataFrame -> DataFrame -> MappingAnimator.M unit)
             (pc1 : PointController),
         MapperController.execute_active_algorithm self
           (MapperController.get_last_normalized_values self)
           (MapperController.get_vectors self) = Ok mapped
         /\ MapperController._animator self = Some animate
         /\ animate (MapperController._last_mapped_points_df self) mapped pc
            = (pc1, Raise e)) ->
  exists (self' : MapperController.t) (pc' : PointController),
    MapperController.execute_mapping self pc = (self', pc', Raise e)
    /\ self' = self
    /\ MapperController.get_mapped_points self'
       = MapperController.get_mapped_points self.
Proof.
  intros [Halg | (mapped & animate & pc1 & Halg & Hanim & Hrun)].
  - exists self, pc. unfold MapperController.execute_mapping. rewrite Halg. auto.
  - exists self, pc1. unfold MapperController.execute_mapping.
    rewrite Halg, Hanim, Hrun. auto.
Qed.

Lemma execute_mapping_failure_keeps_table_witness :
  exists (self' : MapperController.t) (pc' : PointController),
    MapperController.execute_mapping
      (MapperController.mk ∅ ∅ (fun _ _ => Raise RuntimeError) (Some ∅) None
         (Some (table [0] [0])))
      (mkPointController 1 ∅ []) = (self', pc', Raise RuntimeError)
    /\ self' = MapperController.mk ∅ ∅ (fun _ _ => Raise RuntimeError) (Some ∅) None
                 (Some (table [0] [0]))
    /\ MapperController.get_mapped_points self'
       = MapperController.get_mapped_points
           (MapperController.mk ∅ ∅ (fun _ _ => Raise RuntimeError) (Some ∅) None
              (Some (table [0] [0]))).
Proof.
  apply (execute_mapping_failure_keeps_table
           (MapperController.mk ∅ ∅ (fun _ _ => Raise RuntimeError) (Some ∅) None
              (Some (table [0] [0])))
           (mkPointController 1 ∅ []) RuntimeError).
  left. reflexivity.
Defined.

(** C9, as stated, fails for a later step: when the algorithm returns a
    table without an [x] column and no animator is set, the update of the
    source points raises [KeyError] after the new table was stored, and
    [get_mapped_points] returns the new table instead of the earlier one. *)
Lemma execute_mapping_later_step_counterexample :
  snd (MapperController.execute_mapping stale_controller (mkPointController 1 ∅ []))
  = Raise KeyError
  /\ MapperController.get_mapped_points stale_controller = Some (table [0] [0])
  /\ MapperController.get_mapped_points
       (fst (fst (MapperController.execute_mapping stale_controller
                    (mkPointController 1 ∅ []))))
     = Some (<["y" := [1]]> ∅)
  /\ MapperController.get_mapped_points
       (fst (fst (MapperController.execute_mapping stale_controller
                    (mkPointController 1 ∅ []))))
     <> MapperController.get_mapped_points stale_controller.
Proof.
  split; [reflexivity |]. split; [reflexivity |]. split; [reflexivity |].
  intros H. apply (f_equal (fun o => o ≫= (lookup "x"))) in H.
  vm_compute in H. discriminate H.
Qed.

(** ** Axis visibility *)

(** For an axis the view does not know, the check builds its error without
    raising it: the label status is updated, and the call ends in the
    [KeyError] of the dictionary lookup. *)
Lemma update_axis_visibility_unknown (self : StarCoordinatesView.t)
    (axis_id : string) (is_visible : bool) :
  StarCoordinatesView._axis_elements self !! axis_id = None ->
  StarCoordinatesView.update_axis_visibility self (axis_id, is_visible)
  = ({| StarCoordinatesView._axis_elements := StarCoordinatesView._axis_elements self;
        StarCoordinatesView._input_data_controller :=
          StarCoordinatesView.update_label_status
            (StarCoordinatesView._input_data_controller self) axis_id is_visible;
        StarCoordinatesView._mappings_executed :=
          StarCoordinatesView._mappings_executed self |},
     Raise KeyError).
Proof.
  intros H. unfold StarCoordinatesView.update_axis_visibility.
  cbn [StarCoordinatesView._axis_elements]. rewrite H. reflexivity.
Qed.

(** C5, on the code: hiding the unknown axis [zz] in a view with the axes
    [a] and [b] does not raise the [ValueError] of the validity check; the
    label [zz] is recorded as ignored and the call raises [KeyError]. *)
Theorem update_axis_visibility_unknown_axis :
  StarCoordinatesView._axis_elements two_axes_view !! "zz" = None
  /\ snd (StarCoordinatesView.update_axis_visibility two_axes_view ("zz", false))
     = Raise KeyError
  /\ snd (StarCoordinatesView.update_axis_visibility two_axes_view ("zz", false))
     <> Raise ValueError
  /\ ("zz" ∉ StarCoordinatesView._input_data_controller two_axes_view)
  /\ ("zz" ∈ StarCoordinatesView._input_data_controller
              (fst (StarCoordinatesView.update_axis_visibility two_axes_view
                      ("zz", false)))).
Proof.
  assert (H : StarCoordinatesView._axis_elements two_axes_view !! "zz" = None)
    by reflexivity.
  rewrite (update_axis_visibility_unknown two_axes_view "zz" false H).
  split; [exact H |]. split; [reflexivity |]. split; [discriminate |].
  cbn [fst StarCoordinatesView._input_data_controller two_axes_view
         StarCoordinatesView.update_label_status].
  split; set_solver.
Qed.

(** * More properties of the code *)

(** ** Point-size scaler *)

(** X1: whatever value is given to a setter, the bound it stores is the
    value truncated to an integer and raised to 1 when smaller; the other
    bound is left as it was. *)
Theorem set_size_stores_valid_size (self : PointSizeController.t) (new_size : Q) :
  PointSizeController.get_initial_size
    (PointSizeController.set_initial_size self new_size) = Z.max 1 (int new_size)
  /\ PointSizeController.get_final_size
       (PointSizeController.set_initial_size self new_size)
     = PointSizeController.get_final_size self
  /\ PointSizeController.get_final_size
       (PointSizeController.set_final_size self new_size) = Z.max 1 (int new_size)
  /\ PointSizeController.get_initial_size
       (PointSizeController.set_final_size self new_size)
     = PointSizeController.get_initial_size self.
Proof.
  unfold PointSizeController.set_initial_size, PointSizeController.set_final_size.
  split; [| split; [| split]].
  - rewrite (proj1 (update_sizes_bounds _)).
    unfold PointSizeController.get_initial_size.
    cbn [PointSizeController._initial_size]. apply valid_size_max.
  - rewrite (proj2 (update_sizes_bounds _)). reflexivity.
  - rewrite (proj2 (update_sizes_bounds _)).
    unfold PointSizeController.get_final_size.
    cbn [PointSizeController._final_size]. apply valid_size_max.
  - rewrite (proj1 (update_sizes_bounds _)). reflexivity.
Qed.

(** X2: an integer size of at least 1 given to a setter is read back
    unchanged by the getter. *)
Theorem set_size_get_size (self : PointSizeController.t) (z : Z) :
  (1 <= z)%Z ->
  PointSizeController.get_initial_size
    (PointSizeController.set_initial_size self (inject_Z z)) = z
  /\ PointSizeController.get_final_size
       (PointSizeController.set_final_size self (inject_Z z)) = z.
Proof.
  intros Hz.
  destruct (set_size_stores_valid_size self (inject_Z z)) as (H1 & _ & H2 & _).
  rewrite H1, H2, int_inject_Z. lia.
Qed.

Lemma set_size_get_size_witness :
  PointSizeController.get_initial_size
    (PointSizeController.set_initial_size
       (PointSizeController.__init__ (mkErrorController [0; 1])
          (mkPointController 2 ∅ []) 4 12) (inject_Z 9)) = 9%Z
  /\ PointSizeController.get_final_size
       (PointSizeController.set_final_size
          (PointSizeController.__init__ (mkErrorController [0; 1])
             (mkPointController 2 ∅ []) 4 12) (inject_Z 9)) = 9%Z.
Proof.
  apply (set_size_get_size
           (PointSizeController.__init__ (mkErrorController [0; 1])
              (mkPointController 2 ∅ []) 4 12) 9).
  lia.
Defined.

(** X3: recomputing the sizes twice is the same as recomputing them once. *)
Theorem update_sizes_idempotent (self : PointSizeController.t) :
  PointSizeController.update_sizes (PointSizeController.update_sizes self)
  = PointSizeController.update_sizes self.
Proof.
  unfold PointSizeController.update_sizes.
  destruct (PointSizeController._calculate_line_equation
              (PointSizeController._initial_size self)
              (PointSizeController._final_size self)) as [m c] eqn:E.
  cbn [PointSizeController._initial_size PointSizeController._final_size
       PointSizeController._error_controller PointSizeController._point_controller].
  rewrite E. f_equal.
  unfold update_sizes_column. cbn [number_of_points data frames].
  rewrite insert_insert_eq. reflexivity.
Qed.

(** X4: a uniform size does not outlive the next recomputation: after
    [set_single_size], [update_sizes] leaves the controller exactly as
    [update_sizes] alone does. *)
Theorem update_sizes_after_single_size (self : PointSizeController.t) (new_size : Q) :
  PointSizeController.update_sizes (PointSizeController.set_single_size self new_size)
  = PointSizeController.update_sizes self.
Proof.
  unfold PointSizeController.update_sizes, PointSizeController.set_single_size.
  cbn [PointSizeController._initial_size PointSizeController._final_size
       PointSizeController._error_controller PointSizeController._point_controller].
  destruct (PointSizeController._calculate_line_equation
              (PointSizeController._initial_size self)
              (PointSizeController._final_size self)) as [m c].
  f_equal. unfold update_sizes_column. cbn [number_of_points data frames].
  rewrite insert_insert_eq. reflexivity.
Qed.

(** X5: with the line solved as the spec describes it, normalized errors
    between 0 and 1 and [initial_size <= final_size], every size
    [update_sizes] writes lies between the two bounds. *)
Theorem update_sizes_within_bounds (self : PointSizeController.t) :
  Forall (fun e => 0 <= e /\ e <= 1)
         (get_last_point_error (PointSizeController._error_controller self)) ->
  (PointSizeController.get_initial_size self
   <= PointSizeController.get_final_size self)%Z ->
  exists ss : Series,
    PointSizeController.sizes (PointSizeController.update_sizes self) = Some ss
    /\ length ss
       = length (get_last_point_error (PointSizeController._error_controller self))
    /\ Forall (fun s =>
                 inject_Z (PointSizeController.get_initial_size self) <= s
                 /\ s <= inject_Z (PointSizeController.get_final_size self)) ss.
Proof.
  intros He Hb.
  destruct (PointSizeController._calculate_line_equation
              (PointSizeController._initial_size self)
              (PointSizeController._final_size self)) as [m c] eqn:E.
  destruct (size_line_slope _ _ _ _ E) as [Hm Hc].
  eexists. split; [apply (update_sizes_sizes self m c E) |].
  split; [apply length_map |].
  unfold PointSizeController.get_initial_size, PointSizeController.get_final_size in *.
  rewrite Zle_Qle in Hb.
  set (i := inject_Z (PointSizeController._initial_size self)) in *.
  set (f := inject_Z (PointSizeController._final_size self)) in *.
  induction He as [| e es [He0 He1] _ IH]; cbn [map]; constructor; [| exact IH].
  rewrite Hm, Hc. split.
  - apply Qle_minus_iff.
    assert (R : (f - i) * e + i + - i == (f + - i) * e) by ring. rewrite R.
    apply Qmult_le_0_compat; [apply Qle_minus_iff in Hb; exact Hb | exact He0].
  - apply Qle_minus_iff.
    assert (R : f + - ((f - i) * e + i) == (f + - i) * (1 + - e)) by ring.
    rewrite R.
    apply Qmult_le_0_compat; [apply Qle_minus_iff in Hb; exact Hb |].
    apply Qle_minus_iff in He1. exact He1.
Qed.

Lemma update_sizes_within_bounds_witness :
  exists ss : Series,
    PointSizeController.sizes
      (PointSizeController.update_sizes
         (PointSizeController.__init__ (mkErrorController [0; 1 # 3; 1])
            (mkPointController 3 ∅ []) 4 12)) = Some ss
    /\ length ss = length [0; 1 # 3; 1]
    /\ Forall (fun s => inject_Z 4 <= s /\ s <= inject_Z 12) ss.
Proof.
  apply (update_sizes_within_bounds
           (PointSizeController.__init__ (mkErrorController [0; 1 # 3; 1])
              (mkPointController 3 ∅ []) 4 12)).
  - repeat constructor; compute; discriminate.
  - compute. discriminate.
Defined.

(** ** Mapping animator: the step functions *)

Lemma inject_Z_nonzero (z : Z) : z <> 0%Z -> ~ inject_Z z == 0.
Proof. intros Hz H. apply Hz. unfold Qeq in H. cbn in H. lia. Qed.

Lemma interp_full (total_steps : Z) (x xf : Q) :
  total_steps <> 0%Z -> interp total_steps total_steps x xf == xf.
Proof.
  intros HT. unfold interp. field. apply inject_Z_nonzero, HT.
Qed.

Lemma zip_interp_full (total_steps : Z) (xs fx : Series) :
  total_steps <> 0%Z ->
  Forall2 Qeq (zip_with (interp total_steps total_steps) xs fx)
          (take (length xs) fx).
Proof.
  intros HT. revert fx. induction xs as [| x xs IH]; intros [| f fx];
    cbn [zip_with length take]; constructor.
  - apply interp_full, HT.
  - apply IH.
Qed.

(** X6: [step_x_exponential] leaves every column but [x] alone; with step 0
    it leaves x where it is, and with [step = total_steps] (not zero) it
    puts every point on its target x. *)
Theorem step_x_exponential_ends (df final_points : DataFrame) (total_steps : Z)
    (sx fx : Series) :
  df !! "x" = Some sx ->
  final_points !! "x" = Some fx ->
  (length sx <= length fx)%nat ->
  total_steps <> 0%Z ->
  exists xs0 xsT : Series,
    MappingAnimator.step_x_exponential df final_points 0 total_steps
    = Ok (<["x" := xs0]> df)
    /\ Forall2 Qeq xs0 sx
    /\ MappingAnimator.step_x_exponential df final_points total_steps total_steps
       = Ok (<["x" := xsT]> df)
    /\ Forall2 Qeq xsT (take (length sx) fx).
Proof.
  intros Hx Hf Hlen HT.
  exists (zip_with (interp 0 total_steps) sx fx),
    (zip_with (interp total_steps total_steps) sx fx).
  split; [apply step_x_exponential_ok; assumption |].
  split; [apply probe_matches, Hlen |].
  split; [apply step_x_exponential_ok; assumption |].
  apply zip_interp_full, HT.
Qed.

Lemma step_x_exponential_ends_witness :
  exists xs0 xsT : Series,
    MappingAnimator.step_x_exponential (table [1; 2] [0; 0]) (table [5; 7] [0; 0]) 0 4
    = Ok (<["x" := xs0]> (table [1; 2] [0; 0]))
    /\ Forall2 Qeq xs0 [1; 2]
    /\ MappingAnimator.step_x_exponential (table [1; 2] [0; 0]) (table [5; 7] [0; 0])
         4 4
       = Ok (<["x" := xsT]> (table [1; 2] [0; 0]))
    /\ Forall2 Qeq xsT (take (length [1; 2]) [5; 7]).
Proof.
  apply (step_x_exponential_ends (table [1; 2] [0; 0]) (table [5; 7] [0; 0]) 4
           [1; 2] [5; 7]).
  - reflexivity.
  - reflexivity.
  - cbn. lia.
  - discriminate.
Defined.





(** X8: a step table without points is returned as it is, whatever the
    target table holds, even one without an x column; a step table without
    an x column raises [KeyError]. *)
Theorem step_x_exponential_no_points (df final_points : DataFrame)
    (step total_steps : Z) :
  MappingAnimator.step_x_exponential (<["x" := []]> df) final_points step total_steps
  = Ok (<["x" := []]> df)
  /\ MappingAnimator.step_x_exponential (delete "x" df) final_points step total_steps
     = Raise KeyError.
Proof.
  split; unfold MappingAnimator.step_x_exponential, getitem.
  - rewrite lookup_insert_eq. reflexivity.
  - rewrite lookup_delete_eq. reflexivity.
Qed.



(** ** Mapping animator: the sequence *)






Lemma run_steps_lengths (total_steps : Z) (fx : Series) (n : nat) :
  forall (xs : Series) (k : nat),
    (length xs <= length fx)%nat ->
    Forall (fun X : Series => length X = length xs)
           (run_steps total_steps fx xs k n).
Proof.
  induction n as [| n IH]; intros xs k Hlen; cbn [run_steps]; constructor.
  - rewrite length_zip_with. lia.
  - assert (Hl : length (zip_with (interp (Z.of_nat k) total_steps) xs fx)
                 = length xs) by (rewrite length_zip_with; lia).
    rewrite <- Hl. apply IH. lia.
Qed.

Lemma length_line_y (m_l c_l xs : Series) (n : nat) :
  length m_l = n -> length c_l = n -> length xs = n ->
  length (line_y m_l c_l xs) = n.
Proof. intros H1 H2 H3. unfold line_y. rewrite !length_zip_with. lia. Qed.

(** X11: a call pushes [total_steps + 2] layouts after those already in the
    buffer (the probe, one per step, the target; two when the step count is
    zero or negative), and each of them has one x and one y per point. *)
Theorem animation_frame_count (solve : Q * Q -> Q * Q -> Q * Q) (elapsed : Q)
    (original_points mapped_points : DataFrame) (max_time : Q)
    (ox oy mx my : Series) (pc : PointController) :
  layout original_points ox oy ->
  layout mapped_points mx my ->
  length ox = length mx ->
  ~ elapsed == 0 ->
  exists (pc' : PointController) (pushed : list (Series * Series)),
    MappingAnimator.get_animation_sequence solve elapsed original_points
      mapped_points max_time pc = (pc', Ok tt)
    /\ frames pc' = frames pc ++ pushed
    /\ length pushed = (Z.to_nat (Qfloor (max_time / elapsed)) + 2)%nat
    /\ Forall (fun f => length (fst f) = length ox /\ length (snd f) = length ox)
              pushed.
Proof.
  intros Ho Hm Hlen Hne.
  pose proof (get_animation_sequence_frames solve elapsed original_points
                mapped_points max_time ox oy mx my pc Ho Hm Hlen Hne) as Hrun.
  destruct Ho as (Hox & Hoy & Hlo). destruct Hm as (Hmx & Hmy & Hlm).
  eexists _, _. split; [exact Hrun |]. split; [apply frames_pushes |].
  set (T := Qfloor (max_time / elapsed)).
  set (m_l := map fst (equations solve ox oy mx my)).
  set (c_l := map snd (equations solve ox oy mx my)).
  assert (Hml : length m_l = length ox)
    by (unfold m_l; rewrite length_map; apply length_equations; assumption).
  assert (Hcl : length c_l = length ox)
    by (unfold c_l; rewrite length_map; apply length_equations; assumption).
  set (probe := zip_with (interp 0 1) ox mx).
  assert (Hpl : length probe = length ox)
    by (unfold probe; rewrite length_zip_with; lia).
  unfold animation_frames. fold m_l c_l probe. split.
  - cbn [length]. rewrite length_app, length_map, length_run_steps. cbn. lia.
  - constructor; [cbn [fst snd]; split; [exact Hpl | apply length_line_y; assumption] |].
    apply Forall_app. split.
    + pose proof (run_steps_lengths T mx (Z.to_nat T) probe 0 ltac:(lia)) as Hall.
      rewrite Forall_forall in Hall. rewrite Forall_forall. intros f Hf.
      apply list_elem_of_In, in_map_iff in Hf. destruct Hf as (X & <- & HX).
      apply list_elem_of_In, Hall in HX. cbn [fst snd].
      split; [lia | apply length_line_y; lia].
    + constructor; [cbn [fst snd]; lia | constructor].
Qed.

Lemma animation_frame_count_witness :
  exists (pc' : PointController) (pushed : list (Series * Series)),
    MappingAnimator.get_animation_sequence line_equation.calculate_line_equation
      (2 # 3) (table [0; 1] [0; 5]) (table [3; 1] [3; 2]) 2
      (mkPointController 2 ∅ []) = (pc', Ok tt)
    /\ frames pc' = frames (mkPointController 2 ∅ []) ++ pushed
    /\ length pushed = (Z.to_nat (Qfloor (2 / (2 # 3))) + 2)%nat
    /\ Forall (fun f => length (fst f) = length [0; 1]
                        /\ length (snd f) = length [0; 1]) pushed.
Proof.
  apply (animation_frame_count line_equation.calculate_line_equation (2 # 3)
           (table [0; 1] [0; 5]) (table [3; 1] [3; 2]) 2
           [0; 1] [0; 5] [3; 1] [3; 2] (mkPointController 2 ∅ [])).
  - apply layout_table. reflexivity.
  - apply layout_table. reflexivity.
  - reflexivity.
  - compute. discriminate.
Defined.

Lemma equation_dataframe_ok (solve : Q * Q -> Q * Q -> Q * Q)
    (original_points mapped_points : DataFrame) (ox oy mx my : Series) :
  layout original_points ox oy ->
  layout mapped_points mx my ->
  (length ox <= length mx)%nat ->
  MappingAnimator._get_equation_dataframe solve original_points mapped_points
  = Ok (<["c" := map snd (equations solve ox oy mx my)]>
          (<["m" := map fst (equations solve ox oy mx my)]> original_points),
        MappingAnimator.Add
          (MappingAnimator.Mul (MappingAnimator.Col "m") (MappingAnimator.Col "x"))
          (MappingAnimator.Col "c")).
Proof.
  intros (Hox & Hoy & Hlo) (Hmx & Hmy & Hlm) Hlen.
  unfold MappingAnimator._get_equation_dataframe.
  rewrite (getitem_Some _ _ _ Hox), (getitem_Some _ _ _ Hmx),
    (getitem_Some _ _ _ Hoy), (getitem_Some _ _ _ Hmy).
  cbn [rbind]. fold (equations solve ox oy mx my).
  assert (Hl : length (map fst (equations solve ox oy mx my)) = length ox)
    by (unfold equations; rewrite !length_map, !length_zip_with; lia).
  rewrite Hl, Nat.eqb_refl. reflexivity.
Qed.

(** X12: when the two clock readings of the timing probe coincide, the call
    raises [ZeroDivisionError] after it pushed the probe layout: the buffer
    holds the original coordinates, and the target layout is not written. *)
Theorem animation_zero_time_cost (solve : Q * Q -> Q * Q -> Q * Q) (elapsed : Q)
    (original_points mapped_points : DataFrame) (max_time : Q)
    (ox oy mx my : Series) (pc : PointController) :
  layout original_points ox oy ->
  layout mapped_points mx my ->
  length ox = length mx ->
  elapsed == 0 ->
  exists (pc' : PointController) (X Y : Series),
    MappingAnimator.get_animation_sequence solve elapsed original_points
      mapped_points max_time pc = (pc', Raise ZeroDivisionError)
    /\ frames pc' = frames pc ++ [(X, Y)]
    /\ data pc' !! "x" = Some X
    /\ Forall2 Qeq X ox.
Proof.
  intros Ho Hm Hlen Hz.
  pose proof (equation_dataframe_ok solve original_points mapped_points
                ox oy mx my Ho Hm ltac:(lia)) as Heq.
  destruct Ho as (Hox & Hoy & Hlo). destruct Hm as (Hmx & Hmy & Hlm).
  set (m_l := map fst (equations solve ox oy mx my)) in *.
  set (c_l := map snd (equations solve ox oy mx my)) in *.
  set (base := <["c" := c_l]> (<["m" := m_l]> original_points)) in *.
  set (probe := zip_with (interp 0 1) ox mx).
  assert (Hbx : base !! "x" = Some ox)
    by (unfold base; rewrite !lookup_insert_ne by discriminate; exact Hox).
  exists (update_coordinates probe (line_y m_l c_l probe) pc), probe,
    (line_y m_l c_l probe).
  split; [| split; [reflexivity | split]].
  - unfold MappingAnimator.get_animation_sequence.
    unfold MappingAnimator.bind at 1. unfold MappingAnimator.lift at 1.
    rewrite Heq. cbn [fst snd].
    unfold MappingAnimator.bind at 1.
    unfold MappingAnimator.calculate_time_cost, MappingAnimator.bind,
      MappingAnimator.lift, MappingAnimator.push.
    rewrite (step_x_exponential_ok base mapped_points 0 1 ox mx Hbx Hmx) by lia.
    fold probe.
    rewrite (evaluate_y_ok (<["x" := probe]> base) m_l c_l probe).
    + rewrite (getitem_Some _ _ probe), (getitem_Some _ _ (line_y m_l c_l probe)).
      * apply Qeq_bool_iff in Hz. rewrite Hz. reflexivity.
      * apply lookup_insert_eq.
      * rewrite lookup_insert_ne by discriminate. apply lookup_insert_eq.
    + rewrite lookup_insert_ne by discriminate. unfold base.
      rewrite lookup_insert_ne by discriminate. apply lookup_insert_eq.
    + apply lookup_insert_eq.
    + rewrite lookup_insert_ne by discriminate. apply lookup_insert_eq.
  - cbn [update_coordinates data]. rewrite lookup_insert_ne by discriminate.
    apply lookup_insert_eq.
  - apply probe_matches. lia.
Qed.

Lemma animation_zero_time_cost_witness :
  exists (pc' : PointController) (X Y : Series),
    MappingAnimator.get_animation_sequence line_equation.calculate_line_equation
      0 (table [0; 1] [0; 5]) (table [3; 1] [3; 2]) 2
      (mkPointController 2 ∅ []) = (pc', Raise ZeroDivisionError)
    /\ frames pc' = frames (mkPointController 2 ∅ []) ++ [(X, Y)]
    /\ data pc' !! "x" = Some X
    /\ Forall2 Qeq X [0; 1].
Proof.
  apply (animation_zero_time_cost line_equation.calculate_line_equation 0
           (table [0; 1] [0; 5]) (table [3; 1] [3; 2]) 2
           [0; 1] [0; 5] [3; 1] [3; 2] (mkPointController 2 ∅ [])).
  - apply layout_table. reflexivity.
  - apply layout_table. reflexivity.
  - reflexivity.
  - reflexivity.
Defined.

(** X13: when the target layout has fewer points than the original one,
    the call raises [ValueError] while it builds the equation table, before
    anything is pushed. *)
Theorem animation_fewer_target_points (solve : Q * Q -> Q * Q -> Q * Q) (elapsed : Q)
    (original_points mapped_points : DataFrame) (max_time : Q)
    (ox oy mx my : Series) (pc : PointController) :
  layout original_points ox oy ->
  layout mapped_points mx my ->
  (length mx < length ox)%nat ->
  MappingAnimator.get_animation_sequence solve elapsed original_points
    mapped_points max_time pc = (pc, Raise ValueError).
Proof.
  intros (Hox & Hoy & Hlo) (Hmx & Hmy & Hlm) Hlen.
  unfold MappingAnimator.get_animation_sequence.
  unfold MappingAnimator.bind at 1. unfold MappingAnimator.lift at 1.
  unfold MappingAnimator._get_equation_dataframe.
  rewrite (getitem_Some _ _ _ Hox), (getitem_Some _ _ _ Hmx),
    (getitem_Some _ _ _ Hoy), (getitem_Some _ _ _ Hmy).
  cbn [rbind].
  destruct (Nat.eqb_spec
              (length (map fst (map (fun p => solve (fst p) (snd p))
                                    (zip (zip ox mx) (zip oy my)))))
              (length ox)) as [E | E].
  - rewrite !length_map, !length_zip_with in E. lia.
  - reflexivity.
Qed.

Lemma animation_fewer_target_points_witness :
  MappingAnimator.get_animation_sequence line_equation.calculate_line_equation
    1 (table [0; 1] [0; 5]) (table [3] [3]) 2 (mkPointController 2 ∅ [])
  = (mkPointController 2 ∅ [], Raise ValueError).
Proof.
  apply (animation_fewer_target_points line_equation.calculate_line_equation 1
           (table [0; 1] [0; 5]) (table [3] [3]) 2 [0; 1] [0; 5] [3] [3]
           (mkPointController 2 ∅ [])).
  - apply layout_table. reflexivity.
  - apply layout_table. reflexivity.
  - cbn. lia.
Defined.

(** X14: when one of the two tables lacks its x or its y column, the call
    raises [KeyError] before anything is pushed. *)
Theorem animation_missing_column (solve : Q * Q -> Q * Q -> Q * Q) (elapsed : Q)
    (original_points mapped_points : DataFrame) (max_time : Q)
    (pc : PointController) :
  original_points !! "x" = None \/ original_points !! "y" = None
  \/ mapped_points !! "x" = None \/ mapped_points !! "y" = None ->
  MappingAnimator.get_animation_sequence solve elapsed original_points
    mapped_points max_time pc = (pc, Raise KeyError).
Proof.
  intros H.
  unfold MappingAnimator.get_animation_sequence.
  unfold MappingAnimator.bind at 1. unfold MappingAnimator.lift at 1.
  unfold MappingAnimator._get_equation_dataframe, getitem.
  destruct (original_points !! "x") as [ox |]; [| reflexivity].
  destruct (mapped_points !! "x") as [mx |]; [| reflexivity].
  destruct (original_points !! "y") as [oy |]; [| reflexivity].
  destruct (mapped_points !! "y") as [my |]; [| reflexivity].
  destruct H as [H | [H | [H | H]]]; discriminate H.
Qed.

Lemma animation_missing_column_witness :
  MappingAnimator.get_animation_sequence line_equation.calculate_line_equation
    1 (table [0] [0]) (<["x" := [3]]> ∅) 2 (mkPointController 1 ∅ [])
  = (mkPointController 1 ∅ [], Raise KeyError).
Proof.
  apply (animation_missing_column line_equation.calculate_line_equation 1
           (table [0] [0]) (<["x" := [3]]> ∅) 2 (mkPointController 1 ∅ [])).
  right. right. right. reflexivity.
Defined.

(** ** Mapper controller *)

(** X15: when [execute_mapping] returns a table, that table is what the
    active algorithm produced, it is the one [get_mapped_points] returns from
    then on, and a bound source has its x and y columns replaced by the
    table's, its other columns kept. *)
Theorem execute_mapping_returns_stored (self self' : MapperController.t)
    (pc pc' : PointController) (df : DataFrame) :
  MapperController.execute_mapping self pc = (self', pc', Ok df) ->
  MapperController.get_mapped_points self' = Some df
  /\ MapperController.execute_active_algorithm self
       (MapperController.get_last_normalized_values self)
       (MapperController.get_vectors self) = Ok df
  /\ match MapperController._source_points self with
     | Some source =>
         exists x y : Series,
           df !! "x" = Some x /\ df !! "y" = Some y
           /\ MapperController._source_points self'
              = Some (<["y" := y]> (<["x" := x]> source))
     | None => MapperController._source_points self' = None
     end.
Proof.
  unfold MapperController.execute_mapping.
  destruct (MapperController.execute_active_algorithm self _ _) as [mapped | e0];
    [| discriminate].
  destruct (match MapperController._animator self with
            | Some g => g (MapperController._last_mapped_points_df self) mapped pc
            | None => (pc, Ok tt)
            end) as [pc1 [[] | e1]]; [| discriminate].
  cbn [MapperController.set_last_mapped_points_df MapperController._source_points].
  destruct (MapperController._source_points self) as [source |] eqn:Hs.
  - unfold MapperController._update_source_points, getitem.
    destruct (mapped !! "x") as [x |] eqn:Ex; [| discriminate].
    destruct (mapped !! "y") as [y |] eqn:Ey; [| discriminate].
    intros [= <- <- <-]. split; [reflexivity |]. split; [reflexivity |].
    exists x, y. split; [exact Ex |]. split; [exact Ey | reflexivity].
  - intros [= <- <- <-]. split; [reflexivity |]. split; [reflexivity |].
    exact Hs.
Qed.

Lemma execute_mapping_returns_stored_witness :
  MapperController.get_mapped_points
    (MapperController.mk ∅ ∅ (fun _ _ => Ok (table [1] [2]))
       (Some (<["y" := [2]]> (<["x" := [1]]> (<["size" := [4]]> ∅)))) None
       (Some (table [1] [2])))
  = Some (table [1] [2])
  /\ MapperController.execute_active_algorithm
       (MapperController.mk ∅ ∅ (fun _ _ => Ok (table [1] [2]))
          (Some (<["size" := [4]]> ∅)) None None)
       (MapperController.get_last_normalized_values
          (MapperController.mk ∅ ∅ (fun _ _ => Ok (table [1] [2]))
             (Some (<["size" := [4]]> ∅)) None None))
       (MapperController.get_vectors
          (MapperController.mk ∅ ∅ (fun _ _ => Ok (table [1] [2]))
             (Some (<["size" := [4]]> ∅)) None None))
     = Ok (table [1] [2])
  /\ match MapperController._source_points
             (MapperController.mk ∅ ∅ (fun _ _ => Ok (table [1] [2]))
                (Some (<["size" := [4]]> ∅)) None None) with
     | Some source =>
         exists x y : Series,
           table [1] [2] !! "x" = Some x /\ table [1] [2] !! "y" = Some y
           /\ MapperController._source_points
                (MapperController.mk ∅ ∅ (fun _ _ => Ok (table [1] [2]))
                   (Some (<["y" := [2]]> (<["x" := [1]]> (<["size" := [4]]> ∅))))
                   None (Some (table [1] [2])))
              = Some (<["y" := y]> (<["x" := x]> source))
     | None => False
     end.
Proof.
  apply (execute_mapping_returns_stored
           (MapperController.mk ∅ ∅ (fun _ _ => Ok (table [1] [2]))
              (Some (<["size" := [4]]> ∅)) None None)
           (MapperController.mk ∅ ∅ (fun _ _ => Ok (table [1] [2]))
              (Some (<["y" := [2]]> (<["x" := [1]]> (<["size" := [4]]> ∅)))) None
              (Some (table [1] [2])))
           (mkPointController 1 ∅ []) (mkPointController 1 ∅ []) (table [1] [2])).
  reflexivity.
Defined.

(** X16: the update of a bound source is not atomic: when the mapped table
    has an x but no y column, the source gets the new x, keeps its old y,
    and [execute_mapping] raises [KeyError] with the new table stored. *)
Theorem execute_mapping_half_update (self : MapperController.t) (pc : PointController)
    (source : gmap string Series) (mapped : DataFrame) (x : Series) :
  MapperController._animator self = None ->
  MapperController._source_points self = Some source ->
  MapperController.execute_active_algorithm self
    (MapperController.get_last_normalized_values self)
    (MapperController.get_vectors self) = Ok mapped ->
  mapped !! "x" = Some x ->
  mapped !! "y" = None ->
  exists self' : MapperController.t,
    MapperController.execute_mapping self pc = (self', pc, Raise KeyError)
    /\ MapperController._source_points self' = Some (<["x" := x]> source)
    /\ (<["x" := x]> source) !! "y" = source !! "y"
    /\ MapperController.get_mapped_points self' = Some mapped.
Proof.
  intros Ha Hs Halg Hx Hy. unfold MapperController.execute_mapping.
  rewrite Halg, Ha.
  cbn [MapperController.set_last_mapped_points_df MapperController._source_points].
  rewrite Hs. unfold MapperController._update_source_points, getitem.
  rewrite Hx, Hy. eexists. split; [reflexivity |].
  split; [reflexivity |]. split; [| reflexivity].
  apply lookup_insert_ne. discriminate.
Qed.

Lemma execute_mapping_half_update_witness :
  exists self' : MapperController.t,
    MapperController.execute_mapping
      (MapperController.mk ∅ ∅ (fun _ _ => Ok (<["x" := [7]]> ∅))
         (Some (table [1] [2])) None None)
      (mkPointController 1 ∅ []) = (self', mkPointController 1 ∅ [], Raise KeyError)
    /\ MapperController._source_points self' = Some (<["x" := [7]]> (table [1] [2]))
    /\ (<["x" := [7]]> (table [1] [2])) !! "y" = table [1] [2] !! "y"
    /\ MapperController.get_mapped_points self' = Some (<["x" := [7]]> ∅).
Proof.
  apply (execute_mapping_half_update
           (MapperController.mk ∅ ∅ (fun _ _ => Ok (<["x" := [7]]> ∅))
              (Some (table [1] [2])) None None)
           (mkPointController 1 ∅ []) (table [1] [2]) (<["x" := [7]]> ∅) [7]).
  - reflexivity.
  - reflexivity.
  - reflexivity.
  - reflexivity.
  - reflexivity.
Defined.

(** X17: a controller that holds a [MappingAnimator] and no earlier mapping
    cannot make its first one: the animator is handed [None] as the original
    layout, [execute_mapping] raises [AttributeError], and the controller and
    the render buffer stay as they were (so every further call fails alike). *)
Theorem execute_mapping_first_with_animator (self : MapperController.t)
    (pc : PointController) (solve : Q * Q -> Q * Q -> Q * Q) (elapsed : Q)
    (mapped : DataFrame) :
  MapperController._last_mapped_points_df self = None ->
  MapperController._animator self = Some (attached_animator solve elapsed) ->
  MapperController.execute_active_algorithm self
    (MapperController.get_last_normalized_values self)
    (MapperController.get_vectors self) = Ok mapped ->
  MapperController.execute_mapping self pc = (self, pc, Raise AttributeError).
Proof.
  intros Hl Ha Halg. unfold MapperController.execute_mapping.
  rewrite Halg, Ha, Hl. reflexivity.
Qed.

Lemma execute_mapping_first_with_animator_witness :
  MapperController.execute_mapping
    (MapperController.mk ∅ ∅ (fun _ _ => Ok (table [1] [2])) None
       (Some (attached_animator line_equation.calculate_line_equation 1)) None)
    (mkPointController 1 ∅ [])
  = (MapperController.mk ∅ ∅ (fun _ _ => Ok (table [1] [2])) None
       (Some (attached_animator line_equation.calculate_line_equation 1)) None,
     mkPointController 1 ∅ [], Raise AttributeError).
Proof.
  apply (execute_mapping_first_with_animator
           (MapperController.mk ∅ ∅ (fun _ _ => Ok (table [1] [2])) None
              (Some (attached_animator line_equation.calculate_line_equation 1)) None)
           (mkPointController 1 ∅ []) line_equation.calculate_line_equation 1
           (table [1] [2])).
  - reflexivity.
  - reflexivity.
  - reflexivity.
Defined.

(** X18: with an earlier mapping stored, a [MappingAnimator] attached and no
    source bound, [execute_mapping] animates from the stored layout to the new
    one and then stores the new one: the last layout in the render buffer is
    the new table's, and [get_mapped_points] returns the new table. *)
Theorem execute_mapping_animates (self : MapperController.t) (pc : PointController)
    (solve : Q * Q -> Q * Q -> Q * Q) (elapsed : Q)
    (previous mapped : DataFrame) (ox oy mx my : Series) :
  MapperController._last_mapped_points_df self = Some previous ->
  MapperController._animator self = Some (attached_animator solve elapsed) ->
  MapperController._source_points self = None ->
  MapperController.execute_active_algorithm self
    (MapperController.get_last_normalized_values self)
    (MapperController.get_vectors self) = Ok mapped ->
  layout previous ox oy ->
  layout mapped mx my ->
  length ox = length mx ->
  ~ elapsed == 0 ->
  exists (self' : MapperController.t) (pc' : PointController),
    MapperController.execute_mapping self pc = (self', pc', Ok mapped)
    /\ MapperController.get_mapped_points self' = Some mapped
    /\ last (frames pc') = Some (mx, my)
    /\ length (frames pc')
       = (length (frames pc) + Z.to_nat (Qfloor (2 / elapsed)) + 2)%nat.
Proof.
  intros Hl Ha Hs Halg Ho Hm Hlen Hne.
  pose proof (get_animation_sequence_frames solve elapsed previous mapped 2
                ox oy mx my pc Ho Hm Hlen Hne) as Hrun.
  unfold MapperController.execute_mapping.
  rewrite Halg, Ha, Hl. unfold attached_animator. rewrite Hrun.
  cbn [MapperController.set_last_mapped_points_df MapperController._source_points].
  rewrite Hs. eexists _, _. split; [reflexivity |]. split; [reflexivity |].
  rewrite frames_pushes. split; [apply animation_frames_last |].
  rewrite length_app. unfold animation_frames. cbn [length].
  rewrite length_app, length_map, length_run_steps. cbn. lia.
Qed.

Lemma execute_mapping_animates_witness :
  exists (self' : MapperController.t) (pc' : PointController),
    MapperController.execute_mapping
      (MapperController.mk ∅ ∅ (fun _ _ => Ok (table [3; 1] [3; 2])) None
         (Some (attached_animator line_equation.calculate_line_equation 1))
         (Some (table [0; 1] [0; 5])))
      (mkPointController 2 ∅ []) = (self', pc', Ok (table [3; 1] [3; 2]))
    /\ MapperController.get_mapped_points self' = Some (table [3; 1] [3; 2])
    /\ last (frames pc') = Some ([3; 1], [3; 2])
    /\ length (frames pc')
       = (length (frames (mkPointController 2 ∅ []))
          + Z.to_nat (Qfloor (2 / 1)) + 2)%nat.
Proof.
  apply (execute_mapping_animates
           (MapperController.mk ∅ ∅ (fun _ _ => Ok (table [3; 1] [3; 2])) None
              (Some (attached_animator line_equation.calculate_line_equation 1))
              (Some (table [0; 1] [0; 5])))
           (mkPointController 2 ∅ []) line_equation.calculate_line_equation 1
           (table [0; 1] [0; 5]) (table [3; 1] [3; 2]) [0; 1] [0; 5] [3; 1] [3; 2]).
  - reflexivity.
  - reflexivity.
  - reflexivity.
  - reflexivity.
  - apply layout_table. reflexivity.
  - apply layout_table. reflexivity.
  - reflexivity.
  - compute. discriminate.
Defined.

(** ** The view *)


Lemma update_axis_visibility_known (self : StarCoordinatesView.t)
    (axis_id : string) (is_visible : bool) (el : StarCoordinatesView.AxisFigureElement) :
  StarCoordinatesView._axis_elements self !! axis_id = Some el ->
  StarCoordinatesView.update_axis_visibility self (axis_id, is_visible)
  = (StarCoordinatesView.mk
       (<[axis_id := StarCoordinatesView.mkAxis is_visible]>
          (StarCoordinatesView._axis_elements self))
       (StarCoordinatesView.update_label_status
          (StarCoordinatesView._input_data_controller self) axis_id is_visible)
       (if negb (eqb (StarCoordinatesView.is_visible el) is_visible)
        then S (StarCoordinatesView._mappings_executed self)
        else StarCoordinatesView._mappings_executed self),
     Ok tt).
Proof.
  intros H. unfold StarCoordinatesView.update_axis_visibility.
  cbn [StarCoordinatesView._axis_elements]. rewrite H.
  unfold StarCoordinatesView.visible.
  destruct (negb (eqb (StarCoordinatesView.is_visible el) is_visible)); reflexivity.
Qed.

Lemma update_label_status_twice (ignored : gset string) (label : string)
    (active : bool) :
  StarCoordinatesView.update_label_status
    (StarCoordinatesView.update_label_status ignored label active) label active
  = StarCoordinatesView.update_label_status ignored label active.
Proof.
  unfold StarCoordinatesView.update_label_status. destruct active; set_solver.
Qed.

(** X20: [update_axis_visibility] never adds or removes an axis, whether it
    returns or raises; and repeating a call that returned changes nothing
    more: the second call returns without running the mapping again. *)
Theorem update_axis_visibility_stable (self : StarCoordinatesView.t)
    (axis_id : string) (is_visible : bool) :
  dom (StarCoordinatesView._axis_elements
         (fst (StarCoordinatesView.update_axis_visibility self (axis_id, is_visible))))
  = dom (StarCoordinatesView._axis_elements self)
  /\ (snd (StarCoordinatesView.update_axis_visibility self (axis_id, is_visible))
      = Ok tt ->
      StarCoordinatesView.update_axis_visibility
        (fst (StarCoordinatesView.update_axis_visibility self (axis_id, is_visible)))
        (axis_id, is_visible)
      = (fst (StarCoordinatesView.update_axis_visibility self (axis_id, is_visible)),
         Ok tt)).
Proof.
  destruct (StarCoordinatesView._axis_elements self !! axis_id) as [el |] eqn:E.
  - rewrite (update_axis_visibility_known self axis_id is_visible el E).
    cbn [fst snd StarCoordinatesView._axis_elements]. split.
    + rewrite dom_insert_L. apply elem_of_dom_2 in E. set_solver.
    + intros _.
      rewrite (update_axis_visibility_known _ axis_id is_visible
                 (StarCoordinatesView.mkAxis is_visible))
        by (cbn [StarCoordinatesView._axis_elements]; apply lookup_insert_eq).
      cbn [StarCoordinatesView._axis_elements
             StarCoordinatesView._input_data_controller
             StarCoordinatesView._mappings_executed StarCoordinatesView.is_visible].
      rewrite insert_insert_eq, update_label_status_twice, eqb_reflx.
      reflexivity.
  - rewrite (update_axis_visibility_unknown self axis_id is_visible E).
    cbn [fst snd StarCoordinatesView._axis_elements].
    split; [reflexivity | discriminate].
Qed.

(** ** Mapping animator: the line formula *)


